(** * Coylendar (lunizodiacal): the ephemeris, the day classifier and the
      season layout, embedded from [astro.js], [calendarDate.js] and [app.js].

    JavaScript numbers are IEEE 754 binary64 values; they are modelled by
    Rocq's primitive floats, whose [+], [-], [*], [/] round exactly as
    JavaScript's do.  The host supplies what ECMAScript leaves to the
    implementation: the transcendental functions of [Math] and the time zone.
    A [Date] is its time value, an integer number of milliseconds. *)

From Stdlib Require Import ZArith Lia Bool List Floats.
From Stdlib Require String Ascii DecimalString DecimalZ DecimalPos.
From stdpp Require Import base option list.

Set Warnings "-inexact-float".
Local Open Scope Z_scope.

(** ** JavaScript numbers *)

Module JS.

Local Open Scope float_scope.

(** An integer as a number (exact below 2^53, rounded to nearest above). *)
Definition of_Z (z : Z) : float :=
  SF2Prim (binary_normalize prec emax z 0 false).

(** [x === y] and [x !== y] on numbers: NaN differs from itself, and the
    two zeros are equal. *)
Definition strict_eq (x y : float) : bool := PrimFloat.eqb x y.
Definition strict_ne (x y : float) : bool := negb (PrimFloat.eqb x y).

(** [x >= y]: false when either side is NaN. *)
Definition geb (x y : float) : bool := PrimFloat.leb y x.

Definition signed_zero (s : bool) : float := if s then neg_zero else zero.

Definition of_sign_Z (s : bool) (q : Z) : float :=
  if (q =? 0)%Z then signed_zero s else of_Z (if s then - q else q).

(** [Math.trunc]: the integer part, towards zero. *)
Definition Math_trunc (x : float) : float :=
  match Prim2SF x with
  | S754_finite s m e =>
      if (0 <=? e)%Z then x else of_sign_Z s (Z.shiftr (Z.pos m) (- e))
  | _ => x
  end.

(** [Math.floor]: the greatest integer not above [x]. *)
Definition Math_floor (x : float) : float :=
  match Prim2SF x with
  | S754_finite s m e =>
      if (0 <=? e)%Z then x
      else
        let q := Z.shiftr (Z.pos m) (- e) in
        let exact := (Z.shiftl q (- e) =? Z.pos m)%Z in
        if s && negb exact then of_Z (- (q + 1)) else of_sign_Z s q
  | _ => x
  end.

Definition Math_abs (x : float) : float := PrimFloat.abs x.

(** [Math.sign]: 1, -1, the zero itself, or NaN. *)
Definition Math_sign (x : float) : float :=
  if 0 <? x then 1 else if x <? 0 then -1 else x.

(** [Math.min] and [Math.max]: NaN when either argument is, and -0 below +0. *)
Definition Math_min (x y : float) : float :=
  if is_nan x || is_nan y then nan
  else if x <? y then x else if y <? x then y
  else if get_sign x then x else y.
Definition Math_max (x y : float) : float :=
  if is_nan x || is_nan y then nan
  else if y <? x then x else if x <? y then y
  else if get_sign x then y else x.

(** [x % y]: the exact remainder of the truncated division; it takes the
    sign of the dividend [x]. *)
Definition rem (x y : float) : float :=
  match Prim2SF x, Prim2SF y with
  | S754_nan, _ | _, S754_nan => nan
  | S754_infinity _, _ => nan
  | _, S754_zero _ => nan
  | S754_zero _, _ => x
  | S754_finite _ _ _, S754_infinity _ => x
  | S754_finite sx mx ex, S754_finite _ my ey =>
      let e := Z.min ex ey in
      let X := (Z.pos mx * 2 ^ (ex - e))%Z in
      let Y := (Z.pos my * 2 ^ (ey - e))%Z in
      let R := (X mod Y)%Z in
      if (R =? 0)%Z then signed_zero sx
      else SF2Prim (binary_normalize prec emax (if sx then - R else R) e false)
  end.

(** The integer a finite number truncates to ([None] for NaN and the
    infinities). *)
Definition to_Z (x : float) : option Z :=
  match Prim2SF x with
  | S754_zero _ => Some 0%Z
  | S754_finite s m e =>
      let q := if (0 <=? e)%Z then Z.shiftl (Z.pos m) e
               else Z.shiftr (Z.pos m) (- e) in
      Some (if s then - q else q)%Z
  | _ => None
  end.

(** [v & 7] after [ToInt32]: the low three bits of the integer part. *)
Definition and7 (x : float) : Z :=
  match to_Z x with Some z => Z.land z 7 | None => 0%Z end.

Definition Math_PI : float := 0x1.921fb54442d18p+1.
Definition Infinity : float := infinity.

End JS.

(** ** The host: [Math]'s transcendental functions and the time zone *)

Record Host := {
  Math_sin  : float -> float;
  Math_cos  : float -> float;
  Math_tan  : float -> float;
  Math_atan : float -> float;
  (** [getTimezoneOffset()] of the instant with UTC time value [t]:
      minutes, positive west of Greenwich. *)
  tzOffset : Z -> Z;
  (** The same offset, for the local time value [tl] of a civil date and time
      (what [new Date(y, m, d)] consults). *)
  tzOffsetLocal : Z -> Z
}.

(** ** Dates *)

Module Date.

(** A [Date] is its time value: milliseconds since 1970-01-01T00:00Z. *)
Definition t := Z.

Definition msPerDay : Z := 86400000.
Definition msPerMinute : Z := 60000.
Definition msPerHour : Z := 3600000.

(** Days since the epoch of the civil date [y]-[m]-[d] ([m] from 1),
    proleptic Gregorian. *)
Definition days_from_civil (y m d : Z) : Z :=
  let y' := if m <=? 2 then y - 1 else y in
  let era := y' / 400 in
  let yoe := y' - era * 400 in
  let doy := (153 * (if 2 <? m then m - 3 else m + 9) + 2) / 5 + d - 1 in
  let doe := yoe * 365 + yoe / 4 - yoe / 100 + doy in
  era * 146097 + doe - 719468.

(** The civil date (year, month from 1, day) of a day number. *)
Definition civil_from_days (z : Z) : Z * Z * Z :=
  let z := z + 719468 in
  let era := z / 146097 in
  let doe := z - era * 146097 in
  let yoe := (doe - doe / 1460 + doe / 36524 - doe / 146096) / 365 in
  let doy := doe - (365 * yoe + yoe / 4 - yoe / 100) in
  let mp := (5 * doy + 2) / 153 in
  let d := doy - (153 * mp + 2) / 5 + 1 in
  let m := if mp <? 10 then mp + 3 else mp - 9 in
  ((if m <=? 2 then yoe + era * 400 + 1 else yoe + era * 400), m, d).

Section WithHost.
Variable H : Host.

(** ECMAScript's LocalTime(t) and UTC(tl). *)
Definition LocalTime (d : t) : Z := d - tzOffset H d * msPerMinute.
Definition UTC (tl : Z) : t := tl + tzOffsetLocal H tl * msPerMinute.

Definition getTime (d : t) : Z := d.
Definition getTimezoneOffset (d : t) : Z := tzOffset H d.

Definition getFullYear (d : t) : Z :=
  let '(y, _, _) := civil_from_days (LocalTime d / msPerDay) in y.
(** Months count from 0. *)
Definition getMonth (d : t) : Z :=
  let '(_, m, _) := civil_from_days (LocalTime d / msPerDay) in m - 1.
Definition getDate (d : t) : Z :=
  let '(_, _, dd) := civil_from_days (LocalTime d / msPerDay) in dd.
Definition getHours (d : t) : Z := (LocalTime d mod msPerDay) / msPerHour.
Definition getMinutes (d : t) : Z :=
  ((LocalTime d mod msPerDay) mod msPerHour) / msPerMinute.

(** ECMAScript's MakeDay: months and days out of range carry over. *)
Definition MakeDay (year month date : Z) : Z :=
  days_from_civil (year + month / 12) (month mod 12 + 1) 1 + date - 1.

(** [new Date(y, m, d)]: local midnight of a civil date; a year from 0 to
    99 stands for 1900 + year. *)
Definition new_ymd (y m d : Z) : t :=
  let y := if (0 <=? y) && (y <=? 99) then 1900 + y else y in
  UTC (MakeDay y m d * msPerDay).

(** [new Date(d.getFullYear(), d.getMonth(), d.getDate())]: local midnight
    of the civil day of [d]. *)
Definition midnight (d : t) : t :=
  new_ymd (getFullYear d) (getMonth d) (getDate d).

(** [new Date(y, m, d, h, min)]. *)
Definition new_ymdhm (y m d h mi : Z) : t :=
  let y := if (0 <=? y) && (y <=? 99) then 1900 + y else y in
  UTC (MakeDay y m d * msPerDay + h * msPerHour + mi * msPerMinute).

End WithHost.

(** [new Date(v)] for a number [v]: the time value is the integer part
    (the model has no Invalid Date: every [v] the program passes is finite). *)
Definition new_num (v : float) : t :=
  match JS.to_Z v with Some z => z | None => 0 end.

End Date.

(** ** astro.js *)

(** A computation that may not return: [None] stands for a loop still running
    when the fuel ran out. *)
Definition bind_opt {A B} (o : option A) (k : A -> option B) : option B :=
  match o with Some a => k a | None => None end.

Module Astro.

Local Open Scope float_scope.
Import JS.

Definition RADS : float := Math_PI / 180.0.
Definition TPI : float := Math_PI * 2.0.
Definition SMALL_FLOAT : float := 1e-12.

(** What [moonPhase_] returns. *)
Record MoonPhase := { p : Z; phase : float; percent : float }.

(** [range(x)]: "Normalize angle to [0, 2π)". *)
Definition range (x : float) : float :=
  let b := x / TPI in
  let a := TPI * (b - Math_sign b * Math_floor (Math_abs b)) in
  if a <? 0 then TPI + a else a.

(** [julian(y, m, day)]: the Julian Day Number. *)
Definition julian (y m day : float) : float :=
  let '(year, month) := if m <? 3 then (y - 1, m + 12) else (y, m) in
  let b :=
    if (1582 <? year) || ((year =? 1582) && (10 <? month))
       || ((year =? 1582) && (month =? 10) && (15 <? day))
    then let a := Math_trunc (year / 100) in 2 - a + Math_trunc (a / 4)
    else 0 in
  let c := Math_trunc (365.25 * year) in
  let e := Math_trunc (30.6001 * (month + 1)) in
  b + c + e + day + 1720994.5.

(** [moonPosition(j, ls)]: the moon's longitude in degrees, given the
    sines it needs. *)
Definition moonPosition_with (sin : float -> float) (j ls : float) : float :=
  let ms := 0.985647332099 * j - 3.762863 in
  let ms := if ms <? 0 then ms + 360.0 else ms in
  let l := 13.176396 * j + 64.975464 in
  let i := Math_trunc (l / 360) in
  let l := l - i * 360.0 in
  let l := if l <? 0 then l + 360.0 else l in
  let mm := l - 0.1114041 * j - 349.383063 in
  let i := Math_trunc (mm / 360) in
  let mm := mm - i * 360.0 in
  let ev := 1.2739 * sin ((2 * (l - ls) - mm) * RADS) in
  let sms := sin (ms * RADS) in
  let ae := 0.1858 * sms in
  let mm := mm + (ev - ae - 0.37 * sms) in
  let ec := 6.2886 * sin (mm * RADS) in
  let l := l + (ev + ec - ae + 0.214 * sin (2 * mm * RADS)) in
  0.6583 * sin (2 * (l - ls) * RADS) + l.

(** One round of the [do ... while] of [sunPosition]: the residual [dl] and
    the next iterate [e]. *)
Definition kepler_step (sin cos : float -> float) (x e : float) : float * float :=
  let dl := e - 0.016718 * sin e - x in
  (dl, e - dl / (1 - 0.016718 * cos e)).

(** [do { ... } while (Math.abs(dl) >= SMALL_FLOAT)]: the body runs, then
    the test decides.  The result is the state of [dl] and [e] when the loop
    is left; [None]: still looping after [fuel] rounds. *)
Fixpoint kepler_loop (sin cos : float -> float) (fuel : nat) (x e : float)
  : option (float * float) :=
  match fuel with
  | O => None
  | S fuel' =>
      let '(dl, e') := kepler_step sin cos x e in
      if geb (Math_abs dl) SMALL_FLOAT
      then kepler_loop sin cos fuel' x e'
      else Some (dl, e')
  end.

Section WithHost.
Variable H : Host.
(** Rounds the solver of Kepler's equation may take before the model
    gives up on it (the source has no such bound). *)
Variable fuel : nat.

Definition toUtcMinutes (date : Date.t) : float :=
  of_Z (Date.getTimezoneOffset H date).

(** [epoch2000Date(date)]: days since 2000-01-01 12:00 UTC. *)
Definition epoch2000Date (date : Date.t) : float :=
  let year := of_Z (Date.getFullYear H date) in
  let month := of_Z (Date.getMonth H date) + 1 in
  let day := of_Z (Date.getDate H date) in
  let hour := of_Z (Date.getHours H date) in
  let minute := of_Z (Date.getMinutes H date) in
  let j_day :=
    367 * year
    - Math_trunc (7 * (year + Math_trunc ((month + 9) / 12)) / 4)
    + Math_trunc (275 * month / 9) + day in
  let j2000 := j_day - 730531.5 + hour / 24.0 + minute / (24 * 60.0) in
  j2000 + toUtcMinutes date / (24.0 * 60.0).

(** [sun(day)]: ecliptic longitude of the sun, radians. *)
Definition sun (day : float) : float :=
  let longitude := range (280.461 * RADS + 0.9856474 * RADS * day) in
  let g := range (357.528 * RADS + 0.9856003 * RADS * day) in
  range (longitude + 1.915 * RADS * Math_sin H g
         + 0.02 * RADS * Math_sin H (2 * g)).

Definition sunAngle (date : Date.t) : float := sun (epoch2000Date date).

(** [season(date)]: 0 = spring ... 3 = winter. *)
Definition season (date : Date.t) : float :=
  Math_trunc (sunAngle date / TPI * 4.0).

(** [sign(date)]: 0 = Aries ... 11 = Pisces. *)
Definition sign (date : Date.t) : float :=
  Math_trunc (sunAngle date / TPI * 12.0).

(** [sunPosition(j)]: the detailed sun longitude, degrees. *)
Definition sunPosition (j : float) : option float :=
  let n := 360 / 365.2422 * j in
  let i := Math_trunc (n / 360) in
  let n := n - i * 360.0 in
  let x := n - 3.762863 in
  let x := if x <? 0 then x + 360 else x in
  let x := x * RADS in
  bind_opt (kepler_loop (Math_sin H) (Math_cos H) fuel x x) (fun '(_, e) =>
  let v := 360 / Math_PI * Math_atan H (1.01686011182 * Math_tan H (e / 2)) in
  let l := v + 282.596403 in
  let i := Math_trunc (l / 360) in
  Some (l - i * 360.0)).

Definition moonPosition (j ls : float) : float :=
  moonPosition_with (Math_sin H) j ls.

(** [moonPhase_(dt)]: octant, phase angle and illuminated fraction. *)
Definition moonPhase_ (dt : Date.t) : option MoonPhase :=
  let year := of_Z (Date.getFullYear H dt) in
  let month := of_Z (Date.getMonth H dt) + 1 in
  let day := of_Z (Date.getDate H dt) in
  let hour := of_Z (Date.getHours H dt) in
  let minute := of_Z (Date.getMinutes H dt) in
  let j := julian year month
             (day + (hour + minute / 60.0) / 24.0 - 2444238.5) in
  let jUtc := j + toUtcMinutes dt / (60.0 * 24.0) in
  bind_opt (sunPosition jUtc) (fun ls =>
  let lm := moonPosition jUtc ls in
  let t := lm - ls in
  let t := if t <? 0 then t + 360 else t in
  Some {| p := and7 (Math_trunc ((t + 22.5) / 45));
          phase := t;
          percent := (1.0 - Math_cos H ((lm - ls) * RADS)) / 2 |}).

(** [phase(date)]: "Phase angle 0–360". *)
Definition phase_ (date : Date.t) : option float :=
  bind_opt (moonPhase_ date) (fun r => Some (rem (phase r) 360.0)).

(** [percent(date)]: illuminated fraction. *)
Definition percent_ (date : Date.t) : option float :=
  bind_opt (moonPhase_ date) (fun r => Some (percent r)).

(** [moonPhase(date)]: 0 = new, 1 = first quarter, 2 = full, 3 = last. *)
Definition moonPhase (date : Date.t) : option float :=
  bind_opt (phase_ date) (fun ph => Some (Math_trunc (ph / 90.0))).

(** [endOfDay(day)]: midnight of the day plus 24 hours. *)
Definition endOfDay (day : Date.t) : Date.t :=
  let d := Date.midnight H day in
  (Date.getTime d + 86400000)%Z.

End WithHost.

End Astro.

(** ** A reference host

    ECMAScript leaves [Math.sin], [Math.cos], [Math.tan] and [Math.atan]
    "implementation-approximated".  The reference host computes them from
    their power series in binary64 arithmetic, and keeps UTC (or, for
    [helsinki], Eastern European Time with its summer time rule).  It serves
    to run the program on concrete dates. *)

Module RefHost.

Local Open Scope float_scope.
Import JS.

Definition PI_lo : float := 0x1.1a62633145c07p-53.
Definition HALF_PI : float := Math_PI / 2.

(** [x - x^3/3! + x^5/5! - ...]: [n] terms after [term], which is the
    term of degree [k]. *)
Fixpoint series (n : nat) (x2 term k acc : float) : float :=
  match n with
  | O => acc
  | S n' =>
      let term' := - (term * x2) / ((k + 1) * (k + 2)) in
      series n' x2 term' (k + 2) (acc + term')
  end.

(** The argument reduced to [-π, π]. *)
Definition reduce (x : float) : float :=
  let k := Math_floor (x / (2 * Math_PI) + 0.5) in
  x - k * (2 * Math_PI) - k * (2 * PI_lo).

Definition sin (x : float) : float :=
  let r := reduce x in
  let r := if HALF_PI <? r then Math_PI - r + PI_lo
           else if r <? - HALF_PI then - Math_PI - r - PI_lo
           else r in
  series 14 (r * r) r 1 r.

Definition cos (x : float) : float :=
  let r := Math_abs (reduce x) in
  if HALF_PI <? r
  then let r := Math_PI - r + PI_lo in - series 14 (r * r) 1 0 1
  else series 14 (r * r) 1 0 1.

Definition tan (x : float) : float := sin x / cos x.

(** [x - x^3/3 + x^5/5 - ...] for a small [x]. *)
Fixpoint atan_series (n : nat) (x2 pow k acc : float) : float :=
  match n with
  | O => acc
  | S n' =>
      let pow' := - (pow * x2) in
      atan_series n' x2 pow' (k + 2) (acc + pow' / (k + 2))
  end.

Definition atan_small (x : float) : float :=
  let h := fun y => y / (1 + sqrt (1 + y * y)) in
  let y := h (h (h x)) in
  8 * atan_series 14 (y * y) y 1 y.

Definition atan (x : float) : float :=
  if is_nan x then nan
  else if 1 <? x then HALF_PI - atan_small (1 / x)
  else if x <? -1 then - HALF_PI - atan_small (1 / x)
  else atan_small x.

Definition utc : Host :=
  {| Math_sin := sin; Math_cos := cos; Math_tan := tan; Math_atan := atan;
     tzOffset := fun _ => 0%Z; tzOffsetLocal := fun _ => 0%Z |}.

(** Eastern European Time with the European Union's summer time: two hours
    east of Greenwich, three from 01:00 UTC on the last Sunday of March to
    01:00 UTC on the last Sunday of October. *)
Definition last_sunday (y m : Z) : Z :=
  let d := (Date.days_from_civil y (m + 1) 1 - 1)%Z in
  (d - (d + 4) mod 7)%Z.

Definition eet_summer (shift t : Z) : bool :=
  let '(y, _, _) := Date.civil_from_days (t / Date.msPerDay) in
  ((last_sunday y 3 * Date.msPerDay + Date.msPerHour + shift <=? t)
   && (t <? last_sunday y 10 * Date.msPerDay + Date.msPerHour + shift))%Z.

Definition helsinki : Host :=
  {| Math_sin := sin; Math_cos := cos; Math_tan := tan; Math_atan := atan;
     tzOffset := fun t => if eet_summer 0 t then (-180)%Z else (-120)%Z;
     tzOffsetLocal := fun tl =>
       if eet_summer (3 * Date.msPerHour) tl then (-180)%Z else (-120)%Z |}.

End RefHost.

(** ** The [Astro] object, as [calendarDate.js] and [app.js] use it

    Both files reach the ephemeris through the global [Astro]; the four
    methods they call form its interface.  [sign] and [season] always return;
    [moonPhase] runs the solver of Kepler's equation and returns [None] when
    that loop does not finish. *)

Class AstroAPI := {
  astro_sign : Date.t -> float;
  astro_season : Date.t -> float;
  astro_moonPhase : Date.t -> option float;
  astro_endOfDay : Date.t -> Date.t
}.

(** The [Astro] of [astro.js] on a host. *)
Definition Astro_js (H : Host) (fuel : nat) : AstroAPI :=
  {| astro_sign := Astro.sign H;
     astro_season := Astro.season H;
     astro_moonPhase := Astro.moonPhase H fuel;
     astro_endOfDay := Astro.endOfDay H |}.

(** ** calendarDate.js *)

Record Place := { x : float; y : float }.

(** The text shown in a cell: a month's abbreviated name on the 1st, the day
    of the month otherwise. *)
Inductive Label := MonthName (month : Z) | DayNumber (dom : Z).

Record CalendarDate := {
  _today : Date.t;
  mTropicalPhase : float;
  mLunarPhase : float;
  mSeason : float;
  mSignStart : float;
  mSplitFraction : option float;
  mDate : Label;
  mBold : bool;
  mIsSunday : bool;
  mNewMoonWeek : bool;
  mPlace : Place;
  mIsPhaseStart : bool;
  mIsPhaseEnd : bool;
  mPhaseFraction : option float
}.

Definition set_mPlace (pl : Place) (o : CalendarDate) : CalendarDate :=
  {| _today := _today o; mTropicalPhase := mTropicalPhase o;
     mLunarPhase := mLunarPhase o; mSeason := mSeason o;
     mSignStart := mSignStart o; mSplitFraction := mSplitFraction o;
     mDate := mDate o; mBold := mBold o; mIsSunday := mIsSunday o;
     mNewMoonWeek := mNewMoonWeek o; mPlace := pl;
     mIsPhaseStart := mIsPhaseStart o; mIsPhaseEnd := mIsPhaseEnd o;
     mPhaseFraction := mPhaseFraction o |}.

Definition set_mIsPhaseStart (b : bool) (o : CalendarDate) : CalendarDate :=
  {| _today := _today o; mTropicalPhase := mTropicalPhase o;
     mLunarPhase := mLunarPhase o; mSeason := mSeason o;
     mSignStart := mSignStart o; mSplitFraction := mSplitFraction o;
     mDate := mDate o; mBold := mBold o; mIsSunday := mIsSunday o;
     mNewMoonWeek := mNewMoonWeek o; mPlace := mPlace o;
     mIsPhaseStart := b; mIsPhaseEnd := mIsPhaseEnd o;
     mPhaseFraction := mPhaseFraction o |}.

Definition set_mIsPhaseEnd (b : bool) (o : CalendarDate) : CalendarDate :=
  {| _today := _today o; mTropicalPhase := mTropicalPhase o;
     mLunarPhase := mLunarPhase o; mSeason := mSeason o;
     mSignStart := mSignStart o; mSplitFraction := mSplitFraction o;
     mDate := mDate o; mBold := mBold o; mIsSunday := mIsSunday o;
     mNewMoonWeek := mNewMoonWeek o; mPlace := mPlace o;
     mIsPhaseStart := mIsPhaseStart o; mIsPhaseEnd := b;
     mPhaseFraction := mPhaseFraction o |}.

Definition set_mPhaseFraction (f : option float) (o : CalendarDate) : CalendarDate :=
  {| _today := _today o; mTropicalPhase := mTropicalPhase o;
     mLunarPhase := mLunarPhase o; mSeason := mSeason o;
     mSignStart := mSignStart o; mSplitFraction := mSplitFraction o;
     mDate := mDate o; mBold := mBold o; mIsSunday := mIsSunday o;
     mNewMoonWeek := mNewMoonWeek o; mPlace := mPlace o;
     mIsPhaseStart := mIsPhaseStart o; mIsPhaseEnd := mIsPhaseEnd o;
     mPhaseFraction := f |}.

(** *** The store

    [CalendarDate] objects are shared and mutated in place: [next()] sets
    [mIsPhaseEnd] on an object that [seasonCalendar] already holds.  Objects
    live in a heap, a variable or an array slot holds a reference, and a
    method is a state transformer that may fail to return. *)

Abbreviation ref := nat (only parsing).
Abbreviation heap := (list CalendarDate) (only parsing).
Definition M (A : Type) : Type := heap -> option (A * heap).

Definition ret {A} (a : A) : M A := fun h => Some (a, h).
Definition bind {A B} (c : M A) (k : A -> M B) : M B :=
  fun h => match c h with Some (a, h') => k a h' | None => None end.
Definition lift {A} (o : option A) : M A :=
  fun h => match o with Some a => Some (a, h) | None => None end.

Notation "'let*' x := c 'in' k" := (bind c (fun x => k))
  (at level 10, x name, c at level 100, k at level 200).
Notation "'do' c 'in' k" := (bind c (fun _ => k))
  (at level 10, c at level 100, k at level 200).

(** [new]: the object gets the next free reference. *)
Definition alloc (o : CalendarDate) : M ref :=
  fun h => Some (length h, h ++ [o]).
Definition read (r : ref) : M CalendarDate :=
  fun h => match h !! r with Some o => Some (o, h) | None => None end.
(** A field assignment [r.f = v]. *)
Definition modify (r : ref) (f : CalendarDate -> CalendarDate) : M unit :=
  fun h => match h !! r with Some o => Some (tt, <[r := f o]> h) | None => None end.

(** The 20 rounds of a binary search: [for (i < 20) { mid = (lo + hi) / 2;
    if (test(mid)) lo = mid; else hi = mid; }]. *)
Fixpoint bisect (n : nat) (test : float -> option bool) (lo hi : float)
  : option (float * float) :=
  match n with
  | O => Some (lo, hi)
  | S n' =>
      let mid := ((lo + hi) / 2)%float in
      bind_opt (test mid) (fun b =>
        if b then bisect n' test mid hi else bisect n' test lo mid)
  end.

Section CalendarDate.
Variable H : Host.
Context {A : AstroAPI}.

Local Open Scope float_scope.

(** [new Date(startMs + mid * 86400000)]. *)
Definition probe (today : Date.t) (mid : float) : Date.t :=
  Date.new_num (JS.of_Z (Date.getTime today) + mid * 86400000).

(** [_findPhaseFraction()]: reads [_today] and [mLunarPhase]. *)
Definition phase_test (today : Date.t) (oldPhase : float) (mid : float)
  : option bool :=
  bind_opt (astro_moonPhase (probe today mid)) (fun q =>
    Some (JS.strict_eq q oldPhase)).

Definition _findPhaseFraction (this : CalendarDate) : option float :=
  let oldPhase := JS.rem (mLunarPhase this + 3) 4 in
  bind_opt (bisect 20 (phase_test (_today this) oldPhase) 0 1)
    (fun '(lo, hi) => Some ((lo + hi) / 2)).

(** [_findSplitFraction()]: reads [_today] and [mSignStart]. *)
Definition sign_test (today : Date.t) (signStart : float) (mid : float)
  : option bool :=
  Some (JS.strict_eq (astro_sign (probe today mid)) signStart).

Definition _findSplitFraction (today : Date.t) (signStart : float)
  : option float :=
  bind_opt (bisect 20 (sign_test today signStart) 0 1)
    (fun '(lo, hi) => Some ((lo + hi) / 2)).

(** [_newMoonWeek()]: reads [_today], [mSeason] and [mLunarPhase]. *)
Definition _newMoonWeek (today : Date.t) (season lunarPhase : float)
  : option bool :=
  let sixDaysAgo := (Date.getTime today - 6 * 86400000)%Z in
  if JS.strict_eq season (astro_season sixDaysAgo) then
    if JS.strict_eq lunarPhase 0 then
      bind_opt (astro_moonPhase sixDaysAgo) (fun q =>
        Some (JS.strict_eq q 3))
    else Some false
  else Some false.

(** [getDay()]: 0 is Sunday. *)
Definition getDay (d : Date.t) : Z :=
  ((Date.LocalTime H d / Date.msPerDay) + 4) mod 7.

(** The constructor's computation of the fields. *)
Definition CalendarDate_fields (date : Date.t) : option CalendarDate :=
  let today := Date.midnight H date in
  let tomorrow := astro_endOfDay today in
  let tropicalPhase := astro_sign tomorrow in
  bind_opt (astro_moonPhase tomorrow) (fun lunarPhase =>
  let season := astro_season tomorrow in
  let signStart := astro_sign today in
  bind_opt (if JS.strict_ne signStart tropicalPhase
            then bind_opt (_findSplitFraction today signStart)
                   (fun f => Some (Some f))
            else Some None) (fun splitFraction =>
  let dom := Date.getDate H today in
  bind_opt (_newMoonWeek today season lunarPhase) (fun newMoonWeek =>
  Some {| _today := today;
          mTropicalPhase := tropicalPhase;
          mLunarPhase := lunarPhase;
          mSeason := season;
          mSignStart := signStart;
          mSplitFraction := splitFraction;
          mDate := if (dom =? 1)%Z then MonthName (Date.getMonth H today)
                   else DayNumber dom;
          mBold := (dom =? 1)%Z;
          mIsSunday := (getDay today =? 0)%Z;
          mNewMoonWeek := newMoonWeek;
          mPlace := {| x := 0; y := 0 |};
          mIsPhaseStart := false;
          mIsPhaseEnd := false;
          mPhaseFraction := None |}))).

(** [new CalendarDate(date)]. *)
Definition new_CalendarDate (date : Date.t) : M ref :=
  let* o := lift (CalendarDate_fields date) in alloc o.

(** The argument of [next()]'s constructor call:
    [new Date(y, m, d + 1)] of [this._today]. *)
Definition next_date (o : CalendarDate) : Date.t :=
  Date.new_ymd H (Date.getFullYear H (_today o)) (Date.getMonth H (_today o))
    (Date.getDate H (_today o) + 1)%Z.

(** [next()]. *)
Definition next (this : ref) : M ref :=
  let* o := read this in
  let* nxt := new_CalendarDate (next_date o) in
  let* n := read nxt in
  if JS.strict_eq (mLunarPhase o) (mLunarPhase n) then
    do modify nxt (set_mPlace {| x := x (mPlace o) + 0.5;
                                 y := y (mPlace o) |}) in
    ret nxt
  else
    do modify this (set_mIsPhaseEnd true) in
    do modify nxt (set_mIsPhaseStart true) in
    let* f := lift (_findPhaseFraction n) in
    do modify nxt (set_mPhaseFraction (Some f)) in
    do modify nxt (set_mPlace {| x := x (mPlace o) - 19 / 6;
                                 y := y (mPlace o) + 0.5 |}) in
    ret nxt.

Definition leftPoint (o : CalendarDate) : float := x (mPlace o) - 1 / 6.
Definition rightPoint (o : CalendarDate) : float := x (mPlace o) + 0.5.
Definition topPoint (o : CalendarDate) : float := y (mPlace o).
Definition bottomPoint (o : CalendarDate) : float := y (mPlace o) + 0.5.

End CalendarDate.

(** ** app.js *)

Record Bounds := { top : float; left : float; bottom : float; right : float }.

Section App.
Variable H : Host.
Context {A : AstroAPI}.

(** The [for (let i = 0; i < 200; i++)] of [findFirstInSeason]: [Some]
    when the loop returned from inside, [None] when it ran out. *)
Fixpoint findFirst_loop (n : nat) (targetSeason : float) (d : Date.t)
  : option Date.t :=
  match n with
  | O => None
  | S n' =>
      let d := (Date.getTime d - 86400000)%Z in
      if JS.strict_ne (astro_season (astro_endOfDay d)) targetSeason
      then Some (Date.getTime d + 86400000)%Z
      else findFirst_loop n' targetSeason d
  end.

(** [findFirstInSeason(date)]. *)
Definition findFirstInSeason (date : Date.t) : Date.t :=
  let d := Date.midnight H date in
  let targetSeason := astro_season (astro_endOfDay d) in
  match findFirst_loop 200 targetSeason d with
  | Some first => first
  | None => Date.midnight H date
  end.

(** The [for (let i = 0; i < 200; i++)] of [constructSeason]. *)
Fixpoint season_loop (n : nat) (targetSeason : float) (current : ref)
    (seasonCalendar : list ref) (bounds : Bounds)
  : M (list ref * Bounds) :=
  match n with
  | O => ret (seasonCalendar, bounds)
  | S n' =>
      let* c := read current in
      if JS.strict_ne (mSeason c) targetSeason
      then ret (seasonCalendar, bounds)
      else
        let seasonCalendar := seasonCalendar ++ [current] in
        let bounds :=
          {| top := JS.Math_min (top bounds) (topPoint c);
             left := JS.Math_min (left bounds) (leftPoint c);
             bottom := JS.Math_max (bottom bounds) (bottomPoint c);
             right := JS.Math_max (right bounds) (rightPoint c) |} in
        let* nxt := next H current in
        season_loop n' targetSeason nxt seasonCalendar bounds
  end.

(** [constructSeason(date)]: the new values of the globals
    [seasonCalendar] and [bounds]. *)
Definition constructSeason (date : Date.t) : M (list ref * Bounds) :=
  let first := findFirstInSeason date in
  let* current := new_CalendarDate H first in
  do modify current (set_mPlace {| x := 0; y := 0 |}) in
  let* c := read current in
  let targetSeason := mSeason c in
  season_loop 200 targetSeason current []
    {| top := JS.Infinity; left := JS.Infinity;
       bottom := (- JS.Infinity)%float; right := (- JS.Infinity)%float |}.

(** The day records of a layout, read through the store. *)
Definition records (h : heap) (cal : list ref) : list CalendarDate :=
  omap (fun r => h !! r) cal.

End App.

(** ** app.js: the date picker

    [formatDateValue] writes the text of the date input and [parseDateValue]
    reads it back.  Strings are ASCII here; [String(n)] is the decimal
    numeral of an integer, and [Number(s)] is modelled on the strings the
    two functions exchange: a string of decimal digits is its value and the
    empty string is 0, as in JavaScript; for any other string ([NaN], or a
    literal in another form) the model returns [None]. *)

Module Picker.

Import Stdlib.Strings.String Stdlib.Strings.Ascii Stdlib.Numbers.DecimalString.
Local Open Scope string_scope.

(** [String(n)] for an integer [n]. *)
Definition String_of (n : Z) : string :=
  NilZero.string_of_int (Z.to_int n).

(** [Number(s)]. *)
Definition Number (s : string) : option Z :=
  match NilEmpty.uint_of_string s with
  | Some d => Some (Z.of_uint d)
  | None => None
  end.

(** [s.padStart(n, c)] for a one-character filler. *)
Definition padStart (n : nat) (c : ascii) (s : string) : string :=
  string_of_list_ascii (repeat c (n - String.length s)) ++ s.

(** [s.split(c)] for a one-character separator. *)
Fixpoint split (c : ascii) (s : string) : list string :=
  match s with
  | EmptyString => [EmptyString]
  | String a s' =>
      if Ascii.eqb a c then EmptyString :: split c s'
      else match split c s' with
           | h :: t => String a h :: t
           | [] => [String a EmptyString]
           end
  end.

Section WithHost.
Variable H : Host.

Definition formatDateValue (date : Date.t) : string :=
  let y := Date.getFullYear H date in
  let m := padStart 2 "0" (String_of (Date.getMonth H date + 1)) in
  let d := padStart 2 "0" (String_of (Date.getDate H date)) in
  String_of y ++ "-" ++ m ++ "-" ++ d.

(** [const [y, m, d] = str.split('-').map(Number); new Date(y, m - 1, d)]:
    [None] when a part is missing ([undefined]) or is no string of digits. *)
Definition parseDateValue (str : string) : option Date.t :=
  match split "-" str with
  | sy :: sm :: sd :: _ =>
      bind_opt (Number sy) (fun y =>
      bind_opt (Number sm) (fun m =>
      bind_opt (Number sd) (fun d =>
      Some (Date.new_ymd H y (m - 1) d))))
  | _ => None
  end.

End WithHost.

End Picker.

(** * Specification predicates and concrete inputs *)

(** [D2] continues the row of [D1]. *)
Definition row_step (D1 D2 : CalendarDate) : Prop :=
  JS.strict_eq (mLunarPhase D1) (mLunarPhase D2) = true /\
  y (mPlace D2) = y (mPlace D1) /\
  x (mPlace D2) = (x (mPlace D1) + 0.5)%float /\
  mIsPhaseEnd D1 = false /\ mIsPhaseStart D2 = false.

(** [D2] opens a new row below [D1]. *)
Definition row_break (D1 D2 : CalendarDate) : Prop :=
  JS.strict_eq (mLunarPhase D1) (mLunarPhase D2) = false /\
  y (mPlace D2) = (y (mPlace D1) + 0.5)%float /\
  x (mPlace D2) = (x (mPlace D1) - 19 / 6)%float /\
  mIsPhaseEnd D1 = true /\ mIsPhaseStart D2 = true.

Definition tiled (D1 D2 : CalendarDate) : Prop :=
  row_step D1 D2 \/ row_break D1 D2.

(** Every two neighbours of [cal], read in the store [h], are tiled. *)
Definition all_tiled (h : heap) (cal : list ref) : Prop :=
  forall i r1 r2, cal !! i = Some r1 -> cal !! S i = Some r2 ->
    exists D1 D2, h !! r1 = Some D1 /\ h !! r2 = Some D2 /\ tiled D1 D2.

(** The invariant of the loop of [constructSeason]: [current] is the newest
    object, its [mIsPhaseEnd] is still clear, and the days pushed so far,
    followed by [current], are tiled. *)
Record loop_inv (h : heap) (cal : list ref) (current : ref) : Prop := {
  inv_len : length h = S current;
  inv_cur : exists c, h !! current = Some c /\ mIsPhaseEnd c = false;
  inv_old : Forall (fun r => (r < current)%nat) cal;
  inv_tiled : all_tiled h (cal ++ [current])
}.


(** The tiling as the specification words it: same row and half a unit to
    the right, or half a unit down and 19/6 to the left with exactly one of
    the two phase flags set. *)
Definition tiling_claim (D1 D2 : CalendarDate) : Prop :=
  (y (mPlace D2) = y (mPlace D1) /\
   x (mPlace D2) = (x (mPlace D1) + 0.5)%float) \/
  (y (mPlace D2) = (y (mPlace D1) + 0.5)%float /\
   x (mPlace D2) = (x (mPlace D1) - 19 / 6)%float /\
   xorb (mIsPhaseEnd D1) (mIsPhaseStart D2) = true).

(** *** The solver of Kepler's equation *)

(** The test of the [do ... while]: does the round starting from [e] ask for
    another one? *)
Definition kepler_continue (sin cos : float -> float) (x e : float) : bool :=
  JS.geb (JS.Math_abs (fst (Astro.kepler_step sin cos x e))) Astro.SMALL_FLOAT.

(** The iterate [e] after [k] rounds. *)
Fixpoint kepler_iterate (sin cos : float -> float) (k : nat) (x e : float)
  : float :=
  match k with
  | O => e
  | S k' => kepler_iterate sin cos k' x (snd (Astro.kepler_step sin cos x e))
  end.

(** What the specification promises of the solver started at [x]: it is left
    within [cap] rounds with a residual below 1e-12 (the alternative, a
    reported error, is no outcome of the code). *)
Definition kepler_converges_within (sin cos : float -> float) (cap : nat)
    (x : float) : Prop :=
  exists n dl e, (n <= cap)%nat /\
    Astro.kepler_loop sin cos n x x = Some (dl, e) /\
    (JS.Math_abs dl <? Astro.SMALL_FLOAT)%float = true.

(** *** The binary search *)

(** [P] holds of every bracket [n] rounds of halving can reach from
    [lo, hi]. *)
Fixpoint all_brackets (n : nat) (P : float -> float -> bool) (lo hi : float)
  : bool :=
  match n with
  | O => P lo hi
  | S n' =>
      let mid := ((lo + hi) / 2)%float in
      all_brackets n' P mid hi && all_brackets n' P lo mid
  end.

(** The midpoint [f] of the bracket [lo, hi] has [lo = f - 2^-21] and
    [hi = f + 2^-21], and the width is 2^-20. *)
Definition bracket_shape (lo hi : float) : bool :=
  (PrimFloat.Leibniz.eqb ((lo + hi) / 2 - 0x1p-21) lo
   && PrimFloat.Leibniz.eqb ((lo + hi) / 2 + 0x1p-21) hi
   && PrimFloat.Leibniz.eqb (hi - lo) 0x1p-20)%float.

(** What the search establishes about the fraction [f] it returns: the
    predicate holds at the lower end of the last bracket unless that end is
    still 0, and fails at the upper end unless that end is still 1 (the ends
    0 and 1 themselves are never probed). *)
Definition bracketed (test : float -> option bool) (f : float) : Prop :=
  exists lo hi,
    f = ((lo + hi) / 2)%float /\
    lo = (f - 0x1p-21)%float /\ hi = (f + 0x1p-21)%float /\
    (hi - lo)%float = 0x1p-20%float /\
    (lo = 0%float \/ test lo = Some true) /\
    (hi = 1%float \/ test hi = Some false).

(** *** Concrete inputs *)

Module Example.

(** [astro.js] on the reference hosts; a hundred rounds are ample for the
    solver of Kepler's equation there. *)
Definition utc_astro : AstroAPI := Astro_js RefHost.utc 100.
Definition helsinki_astro : AstroAPI := Astro_js RefHost.helsinki 100.

(** [new Date(y, m - 1, d)] on the UTC host. *)
Definition day (y m d : Z) : Date.t := Date.new_ymd RefHost.utc y (m - 1) d.

(** [new Date(y, m - 1, d, h, min)] on the UTC host. *)
Definition instant (y m d h mi : Z) : Date.t :=
  Date.new_ymdhm RefHost.utc y (m - 1) d h mi.

(** The season around 15 May 2024, laid out from an empty store. *)
Definition spring_2024 : option (list ref * Bounds * heap) :=
  constructSeason RefHost.utc (A := utc_astro) (day 2024 5 15) [].

(** An [Astro] whose season never changes: the upstream inconsistency the
    iteration caps guard against. *)
Definition stuck_astro : AstroAPI :=
  {| astro_sign := fun _ => 0%float;
     astro_season := fun _ => 0%float;
     astro_moonPhase := fun _ => Some 0%float;
     astro_endOfDay := Astro.endOfDay RefHost.utc |}.

End Example.

(** *** The days of a layout *)

(** [o'] is [o], possibly with [mIsPhaseEnd] set meanwhile. *)
Definition same_but_end (o o' : CalendarDate) : Prop :=
  o' = o \/ o' = set_mIsPhaseEnd true o.

(** The day behind [r] is in the season [target]. *)
Definition in_season (target : float) (h : heap) (r : ref) : Prop :=
  exists c, h !! r = Some c /\ JS.strict_ne (mSeason c) target = false.


(** *** The search for the first day of the season *)

(** The instant [i] days of 86 400 000 ms before [d0]. *)
Definition days_before (d0 : Date.t) (i : nat) : Date.t :=
  (d0 - Z.of_nat i * 86400000)%Z.

(** The season [findFirstInSeason] reads for the instant [d]. *)
Definition season_of {A : AstroAPI} (d : Date.t) : float :=
  astro_season (astro_endOfDay d).

(** *** Civil dates *)

(** A host that keeps one offset, [c] minutes west of Greenwich, all year. *)
Definition fixed_offset (H : Host) (c : Z) : Prop :=
  (forall t, tzOffset H t = c) /\ (forall tl, tzOffsetLocal H tl = c).

(** Local midnight of day [D] where the offset is [c] minutes. *)
Definition local_midnight (c : Z) (D : Z) : Date.t :=
  (D * Date.msPerDay + c * Date.msPerMinute)%Z.

(** The first day number of the year 100: [new Date(y, m, d)] reads the
    years 0 to 99 as 1900 to 1999, so the constructor keeps a date's day
    only outside them. *)
Definition day_100 : Z := Eval vm_compute in Date.days_from_civil 100 1 1.

(** [P] holds of the [n] integers from [lo]. *)
Fixpoint all_from (n : nat) (P : Z -> bool) (lo : Z) : bool :=
  match n with
  | O => true
  | S n' => P lo && all_from n' P (lo + 1)%Z
  end.

(** *** The phase tick *)

(** A day's phase fraction is there exactly when the day is flagged as the
    start of a lunar quarter, and then it is the fraction the search
    brackets. *)
Definition tick_ok {A : AstroAPI} (o : CalendarDate) : Prop :=
  if mIsPhaseStart o
  then exists f, mPhaseFraction o = Some f /\
         bracketed (phase_test (_today o) (JS.rem (mLunarPhase o + 3) 4)) f
  else mPhaseFraction o = None.

(** *** Rows *)

(** The row of the [i]-th day of a layout: the number of neighbours before
    it whose lunar quarters differ. *)
Fixpoint row (recs : list CalendarDate) (i : nat) : Z :=
  match i with
  | O => 0
  | S j =>
      row recs j +
      match recs !! j, recs !! i with
      | Some D1, Some D2 =>
          if JS.strict_eq (mLunarPhase D1) (mLunarPhase D2) then 0 else 1
      | _, _ => 0
      end
  end%Z.

(** Half a unit more is the next multiple of one half. *)
Definition half_step (k : Z) : bool :=
  PrimFloat.Leibniz.eqb (JS.of_Z k * 0.5 + 0.5) (JS.of_Z (k + 1) * 0.5).


(** *** A run of days *)

(** The invariant of the layout loop on a host with the fixed offset [c]:
    the days pushed so far, followed by [current], are the local midnights
    of the days [D1], [D1 + 1], ..., and each carries the season read at the
    end of its own day. *)
Definition run_inv {A : AstroAPI} (c D1 : Z) (h : heap) (cal : list ref)
    (current : ref) : Prop :=
  length h = S current /\ Forall (fun r => (r < current)%nat) cal /\
  forall i r, (cal ++ [current]) !! i = Some r ->
    exists o, h !! r = Some o /\
      _today o = local_midnight c (D1 + Z.of_nat i) /\
      mSeason o = season_of (_today o).


(** *** The search when the old value is never seen *)

(** The instants the search probes when every test fails: the midpoints of
    [lo, hi], of [lo] and that midpoint, and so on. *)
Fixpoint probes_down (n : nat) (lo hi : float) : list float :=
  match n with
  | O => []
  | S n' => let mid := ((lo + hi) / 2)%float in mid :: probes_down n' lo mid
  end.

(** The upper end of the bracket after [n] failed tests. *)
Fixpoint hi_down (n : nat) (lo hi : float) : float :=
  match n with
  | O => hi
  | S n' => hi_down n' lo ((lo + hi) / 2)%float
  end.

(** [test] returns false at every instant of [l]. *)
Definition never (test : float -> option bool) (l : list float) : bool :=
  forallb (fun m => match test m with Some b => negb b | None => false end) l.

(** *** Equality of numbers *)

(** What [===] decides on two numbers: both are zeros, or they are the same
    infinity or the same finite number; NaN equals nothing. *)
Definition sf_same (f1 f2 : spec_float) : Prop :=
  match f1, f2 with
  | S754_zero _, S754_zero _ => True
  | S754_infinity s1, S754_infinity s2 => s1 = s2
  | S754_finite s1 m1 e1, S754_finite s2 m2 e2 =>
      s1 = s2 /\ m1 = m2 /\ e1 = e2
  | _, _ => False
  end.

(** *** Day numbers *)

(** An integer from 0 to 2^63 - 1 as a number, by the machine's own
    conversion. *)
Definition fast_of_Z (z : Z) : float := PrimFloat.of_uint63 (Uint63.of_Z z).

(** The part of the day count of [epoch2000Date] that the year and the month
    (from 1) decide. *)
Definition j_month (y m : Z) : float :=
  let year := JS.of_Z y in
  let month := (JS.of_Z (m - 1) + 1)%float in
  (367 * year
   - JS.Math_trunc (7 * (year + JS.Math_trunc ((month + 9) / 12)) / 4)
   + JS.Math_trunc (275 * month / 9))%float.

(** The year and the month of the [j]-th month counted from March of the
    year 0. *)
Definition month_of_index (j : Z) : Z * Z :=
  let y' := (j / 12)%Z in
  let mp := (j mod 12)%Z in
  if (mp <? 10)%Z then (y', mp + 3)%Z else (y' + 1, mp - 9)%Z.

(** The day count of [epoch2000Date], for the civil date [ymd] (year, month
    from 1, day) as the [Date] getters report it. *)
Definition j_day (ymd : Z * Z * Z) : float :=
  let '(y, m, d) := ymd in (j_month y m + JS.of_Z d)%float.

(** In the month [ym], the day count of [epoch2000Date] is the day number
    plus 719 574, for each day of the month from 1 to 31. *)
Definition j_month_ok_at (ym : Z * Z) : bool :=
  let '(y, m) := ym in
  let pre := j_month y m in
  let D0 := Date.days_from_civil y m 1 in
  all_from 31
    (fun d => PrimFloat.Leibniz.eqb (pre + fast_of_Z d)
                (fast_of_Z (D0 + d - 1 + 719574)))%float 1.

Definition j_month_ok (j : Z) : bool := j_month_ok_at (month_of_index j).

(** The part of [julian] that the year and the month decide, in the
    Gregorian calendar. *)
Definition julian_month (y m : float) : float :=
  let '(year, month) :=
    if (m <? 3)%float then (y - 1, m + 12)%float else (y, m) in
  let a := JS.Math_trunc (year / 100) in
  let b := (2 - a + JS.Math_trunc (a / 4))%float in
  let c := JS.Math_trunc (365.25 * year) in
  let e := JS.Math_trunc (30.6001 * (month + 1)) in
  (b + c + e)%float.

(** The year [julian] tests against 1582. *)
Definition julian_year (y m : float) : float :=
  if (m <? 3)%float then (y - 1)%float else y.

(** In the month [ym], which is after 1582, [julian] is the Julian Date of
    the midnight of each day from 1 to 31. *)
Definition julian_month_ok_at (ym : Z * Z) : bool :=
  let '(y, m) := ym in
  let pre := julian_month (JS.of_Z y) (JS.of_Z m) in
  let D0 := Date.days_from_civil y m 1 in
  (1582 <? julian_year (JS.of_Z y) (JS.of_Z m))%float
  && all_from 31
       (fun d => PrimFloat.Leibniz.eqb (pre + fast_of_Z d + 1720994.5)
                   (fast_of_Z (D0 + d - 1 + 2440587) + 0.5))%float 1.

Definition julian_month_ok (j : Z) : bool :=
  julian_month_ok_at (month_of_index j).

(** * Properties *)

(** ** The J2000 epoch *)

Section Epoch.
Variable H : Host.

(** C9: at the civil instant 2000-01-01T12:00 with a UTC offset of 0
    minutes, [epoch2000Date] returns exactly 0: the day number 730531 less
    730531.5 is -0.5, the twelve hours add 0.5, and the minute and offset
    terms are 0. *)
Theorem epoch2000_at_J2000 (date : Date.t) :
  Date.getFullYear H date = 2000 ->
  Date.getMonth H date = 0 ->
  Date.getDate H date = 1 ->
  Date.getHours H date = 12 ->
  Date.getMinutes H date = 0 ->
  Date.getTimezoneOffset H date = 0 ->
  Astro.epoch2000Date H date = 0%float.
Proof.
  intros Hy Hm Hd Hh Hmi Htz.
  unfold Astro.epoch2000Date, Astro.toUtcMinutes.
  rewrite Hy, Hm, Hd, Hh, Hmi, Htz.
  vm_compute. reflexivity.
Qed.

End Epoch.

(** The instant 2000-01-01T12:00Z on the reference host. *)
Lemma epoch2000_at_J2000_utc :
  Astro.epoch2000Date RefHost.utc 946728000000 = 0%float.
Proof.
  apply (epoch2000_at_J2000 RefHost.utc 946728000000); vm_compute; reflexivity.
Defined.

(** ** The store and the constructor *)

Lemma Some_eq {X} (a b : X) : Some a = Some b -> a = b.
Proof. intros E. inversion E. reflexivity. Qed.

Lemma Some_pair_eq {X Y} (a c : X) (b d : Y) :
  Some (a, b) = Some (c, d) -> a = c /\ b = d.
Proof. intros E. inversion E. auto. Qed.

Lemma insert_snoc {X} (l : list X) (a b : X) :
  <[length l := a]> (l ++ [b]) = l ++ [a].
Proof.
  replace (length l) with (length l + 0)%nat at 1 by lia.
  apply (insert_app_r l [b] 0).
Qed.

Section Layout.
Variable H : Host.
Context {A : AstroAPI}.

Local Open Scope nat_scope.

Lemma bind_Some {X Y} (c : M X) (k : X -> M Y) h r :
  bind c k h = Some r ->
  exists a h1, c h = Some (a, h1) /\ k a h1 = Some r.
Proof.
  unfold bind. destruct (c h) as [[a h1]|]; [eauto | discriminate].
Qed.

Lemma bind_opt_Some {X Y} (o : option X) (k : X -> option Y) r :
  bind_opt o k = Some r -> exists a, o = Some a /\ k a = Some r.
Proof. destruct o; simpl; [eauto | discriminate]. Qed.

Lemma lift_Some {X} (o : option X) h a h1 :
  lift o h = Some (a, h1) -> o = Some a /\ h1 = h.
Proof.
  unfold lift. destruct o; [|discriminate].
  intros E. apply Some_pair_eq in E as [<- <-]. auto.
Qed.

Lemma read_Some r h o h1 :
  read r h = Some (o, h1) -> h !! r = Some o /\ h1 = h.
Proof.
  unfold read. destruct (h !! r); intros E; inversion E; auto.
Qed.

Lemma modify_Some r f h u h1 :
  modify r f h = Some (u, h1) ->
  exists o, h !! r = Some o /\ h1 = <[r := f o]> h.
Proof.
  unfold modify. destruct (h !! r); intros E; inversion E; eauto.
Qed.

(** A freshly constructed day sits at the origin with both phase flags
    clear. *)
Lemma CalendarDate_fields_fresh date o :
  CalendarDate_fields H date = Some o ->
  mPlace o = {| x := 0; y := 0 |} /\ mIsPhaseStart o = false /\
  mIsPhaseEnd o = false /\ mPhaseFraction o = None.
Proof.
  unfold CalendarDate_fields.
  destruct (astro_moonPhase _) as [q|]; [|discriminate]. cbn [bind_opt].
  destruct (if JS.strict_ne _ _ then _ else _) as [sf|]; [|discriminate].
  cbn [bind_opt].
  destruct (_newMoonWeek _ _ _) as [w|]; [|discriminate]. cbn [bind_opt].
  intros E. apply Some_eq in E. subst o. repeat split; reflexivity.
Qed.

Lemma new_CalendarDate_Some date h r h1 :
  new_CalendarDate H date h = Some (r, h1) ->
  exists o, CalendarDate_fields H date = Some o /\
            r = length h /\ h1 = h ++ [o].
Proof.
  unfold new_CalendarDate. intros E.
  apply bind_Some in E as (o & h2 & E1 & E2).
  apply lift_Some in E1 as [Ho ->].
  unfold alloc in E2. apply Some_pair_eq in E2 as [<- <-]. eauto.
Qed.

(** What [next()] does to the store: it appends the new day, and on a change
    of lunar quarter it also sets [mIsPhaseEnd] on the receiver. *)
Lemma next_Some this h nxt h1 :
  next H this h = Some (nxt, h1) ->
  exists o n,
    h !! this = Some o /\ nxt = length h /\
    CalendarDate_fields H (next_date H o) = Some n /\
    ((JS.strict_eq (mLunarPhase o) (mLunarPhase n) = true /\
      h1 = h ++ [set_mPlace {| x := (x (mPlace o) + 0.5)%float;
                               y := y (mPlace o) |} n])
     \/
     (JS.strict_eq (mLunarPhase o) (mLunarPhase n) = false /\
      exists f, _findPhaseFraction n = Some f /\
      h1 = <[this := set_mIsPhaseEnd true o]> h ++
           [set_mPlace {| x := (x (mPlace o) - 19 / 6)%float;
                          y := (y (mPlace o) + 0.5)%float |}
              (set_mPhaseFraction (Some f) (set_mIsPhaseStart true n))])).
Proof.
  unfold next. intros E.
  apply bind_Some in E as (o & h2 & E1 & E).
  apply read_Some in E1 as [Ho ->].
  apply bind_Some in E as (r & h3 & E2 & E).
  apply new_CalendarDate_Some in E2 as (n & Hn & -> & ->).
  apply bind_Some in E as (n' & h4 & E3 & E).
  apply read_Some in E3 as [Hn' ->].
  rewrite list_lookup_middle in Hn' by reflexivity.
  apply Some_eq in Hn'. subst n'.
  pose proof (lookup_lt_Some _ _ _ Ho) as Hlt.
  exists o, n. split; [exact Ho|].
  cut (nxt = length h /\
    ((JS.strict_eq (mLunarPhase o) (mLunarPhase n) = true /\
      h1 = h ++ [set_mPlace {| x := (x (mPlace o) + 0.5)%float;
                               y := y (mPlace o) |} n])
     \/
     (JS.strict_eq (mLunarPhase o) (mLunarPhase n) = false /\
      exists f, _findPhaseFraction n = Some f /\
      h1 = <[this := set_mIsPhaseEnd true o]> h ++
           [set_mPlace {| x := (x (mPlace o) - 19 / 6)%float;
                          y := (y (mPlace o) + 0.5)%float |}
              (set_mPhaseFraction (Some f) (set_mIsPhaseStart true n))]))).
  { intros [? ?]. auto. }
  destruct (JS.strict_eq (mLunarPhase o) (mLunarPhase n)) eqn:Hq.
  - apply bind_Some in E as (u & h5 & E4 & E).
    apply modify_Some in E4 as (n2 & Hn2 & ->).
    rewrite list_lookup_middle in Hn2 by reflexivity.
    apply Some_eq in Hn2. subst n2.
    unfold ret in E. apply Some_pair_eq in E as [<- <-].
    split; [reflexivity|]. left. split; [reflexivity|].
    apply insert_snoc.
  - apply bind_Some in E as (u & h5 & E4 & E).
    apply modify_Some in E4 as (o2 & Ho2 & ->).
    rewrite lookup_app_l in Ho2 by assumption.
    rewrite Ho in Ho2. apply Some_eq in Ho2. subst o2.
    rewrite insert_app_l in E by assumption.
    set (h' := <[this := set_mIsPhaseEnd true o]> h) in *.
    assert (Hlen : length h = length h') by (symmetry; apply length_insert).
    rewrite Hlen in E.
    apply bind_Some in E as (u2 & h6 & E5 & E).
    apply modify_Some in E5 as (n2 & Hn2 & ->).
    rewrite list_lookup_middle in Hn2 by reflexivity.
    apply Some_eq in Hn2. subst n2.
    rewrite insert_snoc in E.
    apply bind_Some in E as (f & h7 & E6 & E).
    apply lift_Some in E6 as [Hf ->].
    apply bind_Some in E as (u3 & h8 & E7 & E).
    apply modify_Some in E7 as (n3 & Hn3 & ->).
    rewrite list_lookup_middle in Hn3 by reflexivity.
    apply Some_eq in Hn3. subst n3.
    rewrite insert_snoc in E.
    apply bind_Some in E as (u4 & h9 & E8 & E).
    apply modify_Some in E8 as (n4 & Hn4 & ->).
    rewrite list_lookup_middle in Hn4 by reflexivity.
    apply Some_eq in Hn4. subst n4.
    unfold ret in E. apply Some_pair_eq in E as [<- <-].
    split; [symmetry; exact Hlen|]. right. split; [reflexivity|].
    exists f. split; [exact Hf|].
    apply insert_snoc.
Qed.


Lemma tiled_set_end D1 D2 b : tiled D1 D2 -> tiled D1 (set_mIsPhaseEnd b D2).
Proof. intros [R|R]; [left|right]; exact R. Qed.

Lemma all_tiled_prefix h cal r : all_tiled h (cal ++ [r]) -> all_tiled h cal.
Proof.
  intros T i r1 r2 L1 L2. apply (T i r1 r2).
  - rewrite lookup_app_l; [exact L1 | eapply lookup_lt_Some; eauto].
  - rewrite lookup_app_l; [exact L2 | eapply lookup_lt_Some; eauto].
Qed.

Lemma loop_inv_next h cal current nxt h1 :
  loop_inv h cal current ->
  next H current h = Some (nxt, h1) ->
  loop_inv h1 (cal ++ [current]) nxt.
Proof.
  intros [Ilen (c & Hc & Hend) Iold It] E.
  apply next_Some in E as (o & n & Ho & -> & Hn & Hcase).
  rewrite Hc in Ho. apply Some_eq in Ho. subst o.
  apply CalendarDate_fields_fresh in Hn as (_ & Hst & Hen & _).
  assert (Hcur : current < length h) by lia.
  assert (Hold : forall i r, cal !! i = Some r -> r < current).
  { intros i r L. rewrite Forall_forall in Iold. apply Iold.
    eapply list_elem_of_lookup_2; eauto. }
  assert (Hsplit : forall i r1 r2,
            ((cal ++ [current]) ++ [length h]) !! i = Some r1 ->
            ((cal ++ [current]) ++ [length h]) !! S i = Some r2 ->
            (cal !! i = Some r1 /\ (cal ++ [current]) !! S i = Some r2) \/
            (i = length cal /\ r1 = current /\ r2 = length h)).
  { intros i r1 r2 L1 L2.
    pose proof (lookup_lt_Some _ _ _ L2) as B.
    rewrite !length_app in B. simpl in B.
    destruct (decide (i < length cal)) as [Hi|Hi].
    - left. split.
      + rewrite <- L1. rewrite <- app_assoc. symmetry. apply lookup_app_l. exact Hi.
      + rewrite <- L2. symmetry. apply lookup_app_l.
        rewrite length_app. simpl. lia.
    - right. assert (i = length cal) by lia. subst i. split; [reflexivity|].
      split.
      + rewrite lookup_app_l in L1 by (rewrite length_app; simpl; lia).
        rewrite list_lookup_middle in L1 by reflexivity.
        apply Some_eq in L1. auto.
      + replace (S (length cal)) with (length (cal ++ [current])) in L2
          by (rewrite length_app; simpl; lia).
        rewrite list_lookup_middle in L2 by reflexivity.
        apply Some_eq in L2. auto. }
  destruct Hcase as [(Hq & ->) | (Hq & f & Hf & ->)].
  - split.
    + rewrite length_app. simpl. lia.
    + eexists. split; [apply list_lookup_middle; reflexivity | exact Hen].
    + rewrite Forall_app. split.
      * eapply Forall_impl; [exact Iold | simpl; intros; lia].
      * constructor; [lia | constructor].
    + intros i r1 r2 L1 L2.
      destruct (Hsplit i r1 r2 L1 L2) as [(A1 & A2) | (-> & -> & ->)].
      * assert (A1' : (cal ++ [current]) !! i = Some r1).
        { rewrite lookup_app_l; [exact A1 | eapply lookup_lt_Some; eauto]. }
        destruct (It i r1 r2 A1' A2) as (D1 & D2 & E1 & E2 & T).
        exists D1, D2. split; [|split; [|exact T]].
        -- rewrite lookup_app_l; [exact E1 | eapply lookup_lt_Some; eauto].
        -- rewrite lookup_app_l; [exact E2 | eapply lookup_lt_Some; eauto].
      * eexists c, _. split; [|split].
        -- rewrite lookup_app_l; [exact Hc | exact Hcur].
        -- apply list_lookup_middle. reflexivity.
        -- left. repeat split; auto.
  - set (h' := <[current := set_mIsPhaseEnd true c]> h).
    assert (Hlen' : length h' = length h) by apply length_insert.
    split.
    + rewrite length_app. simpl. lia.
    + eexists. split.
      * rewrite <- Hlen'. apply list_lookup_middle. reflexivity.
      * exact Hen.
    + rewrite Forall_app. split.
      * eapply Forall_impl; [exact Iold | simpl; intros; lia].
      * constructor; [lia | constructor].
    + intros i r1 r2 L1 L2.
      destruct (Hsplit i r1 r2 L1 L2) as [(A1 & A2) | (-> & -> & ->)].
      * assert (A1' : (cal ++ [current]) !! i = Some r1).
        { rewrite lookup_app_l; [exact A1 | eapply lookup_lt_Some; eauto]. }
        destruct (It i r1 r2 A1' A2) as (D1 & D2 & E1 & E2 & T).
        pose proof (Hold _ _ A1) as Hr1.
        assert (F1 : (h' ++ [set_mPlace {| x := (x (mPlace c) - 19 / 6)%float;
                                           y := (y (mPlace c) + 0.5)%float |}
                               (set_mPhaseFraction (Some f)
                                  (set_mIsPhaseStart true n))]) !! r1 = Some D1).
        { rewrite lookup_app_l by lia. unfold h'.
          rewrite list_lookup_insert_ne by lia. exact E1. }
        destruct (decide (r2 = current)) as [->|Hne].
        -- rewrite Hc in E2. apply Some_eq in E2. subst D2.
           exists D1, (set_mIsPhaseEnd true c). split; [exact F1|]. split.
           ++ rewrite lookup_app_l by lia. unfold h'.
              apply list_lookup_insert_eq. exact Hcur.
           ++ apply tiled_set_end. exact T.
        -- exists D1, D2. split; [exact F1|]. split; [|exact T].
           rewrite lookup_app_l by (rewrite Hlen'; eapply lookup_lt_Some; eauto).
           unfold h'. rewrite list_lookup_insert_ne by auto. exact E2.
      * eexists (set_mIsPhaseEnd true c), _. split; [|split].
        -- rewrite lookup_app_l by lia. unfold h'.
           apply list_lookup_insert_eq. exact Hcur.
        -- rewrite <- Hlen'. apply list_lookup_middle. reflexivity.
        -- right. repeat split; auto.
Qed.


Lemma season_loop_inv n : forall target current cal b h cal' b' h',
  loop_inv h cal current ->
  season_loop H n target current cal b h = Some ((cal', b'), h') ->
  all_tiled h' cal' /\ length cal' <= length cal + n /\
  Forall (fun r => r < length h') cal'.
Proof.
  induction n as [|n IH]; intros target current cal b h cal' b' h' I E.
  - simpl in E. unfold ret in E. apply Some_pair_eq in E as [E <-].
    apply (f_equal fst) in E. simpl in E. subst cal'.
    split; [eapply all_tiled_prefix, (inv_tiled _ _ _ I)|].
    split; [lia|].
    eapply Forall_impl; [apply (inv_old _ _ _ I)|].
    simpl. intros r Hr. rewrite (inv_len _ _ _ I). lia.
  - simpl in E.
    apply bind_Some in E as (c & h0 & E1 & E).
    apply read_Some in E1 as [Hc ->].
    destruct (JS.strict_ne (mSeason c) target).
    + unfold ret in E. apply Some_pair_eq in E as [E <-].
      apply (f_equal fst) in E. simpl in E. subst cal'.
      split; [eapply all_tiled_prefix, (inv_tiled _ _ _ I)|].
      split; [lia|].
      eapply Forall_impl; [apply (inv_old _ _ _ I)|].
      simpl. intros r Hr. rewrite (inv_len _ _ _ I). lia.
    + apply bind_Some in E as (nxt & h1 & E2 & E).
      pose proof (loop_inv_next _ _ _ _ _ I E2) as I'.
      destruct (IH _ _ _ _ _ _ _ _ I' E) as (T & L & V).
      split; [exact T|]. split; [|exact V].
      rewrite length_app in L. simpl in L. lia.
Qed.

(** The store and the first day as the loop of [constructSeason] finds
    them. *)
Lemma constructSeason_Some date h cal b h' :
  constructSeason H date h = Some ((cal, b), h') ->
  exists current c h0 bounds0,
    loop_inv h0 [] current /\ h0 !! current = Some c /\
    season_loop H 200 (mSeason c) current [] bounds0 h0 = Some ((cal, b), h').
Proof.
  unfold constructSeason. intros E.
  apply bind_Some in E as (current & h1 & E1 & E).
  apply new_CalendarDate_Some in E1 as (o & Ho & -> & ->).
  apply bind_Some in E as (u & h2 & E2 & E).
  apply modify_Some in E2 as (o' & Ho' & ->).
  rewrite list_lookup_middle in Ho' by reflexivity.
  apply Some_eq in Ho'. subst o'.
  rewrite insert_snoc in E.
  apply bind_Some in E as (c & h3 & E3 & E).
  apply read_Some in E3 as [Hc ->].
  pose proof Hc as Hc'.
  rewrite list_lookup_middle in Hc' by reflexivity.
  apply Some_eq in Hc'.
  apply CalendarDate_fields_fresh in Ho as (_ & _ & Hen & _).
  eexists _, c, _, _. split; [|split; [exact Hc | exact E]].
  split.
  - rewrite length_app. simpl. lia.
  - exists c. split; [exact Hc|]. subst c. exact Hen.
  - constructor.
  - intros i r1 r2 L1 L2. apply lookup_lt_Some in L2. simpl in L2. lia.
Qed.

End Layout.

(** ** Termination of the layout *)

Section Totality.
Variable H : Host.
Context {A : AstroAPI}.
Hypothesis moonPhase_returns : forall d, is_Some (astro_moonPhase d).

Local Open Scope nat_scope.

Lemma bisect_total n (test : float -> option bool) :
  (forall m, is_Some (test m)) ->
  forall lo hi, is_Some (bisect n test lo hi).
Proof.
  intros T. induction n as [|n IH]; intros lo hi; simpl.
  - eauto.
  - destruct (T ((lo + hi) / 2)%float) as [b ->]. simpl.
    destruct b; apply IH.
Qed.

Lemma findPhaseFraction_total o : is_Some (_findPhaseFraction o).
Proof.
  unfold _findPhaseFraction.
  destruct (bisect_total 20 (phase_test (_today o)
              (JS.rem (mLunarPhase o + 3) 4)%float)) with (lo := 0%float) (hi := 1%float)
    as [[lo hi] ->].
  - intros m. unfold phase_test.
    destruct (moonPhase_returns (probe (_today o) m)) as [q ->]. simpl. eauto.
  - simpl. eauto.
Qed.

Lemma findSplitFraction_total today s : is_Some (_findSplitFraction today s).
Proof.
  unfold _findSplitFraction.
  destruct (bisect_total 20 (sign_test today s)) with (lo := 0%float) (hi := 1%float)
    as [[lo hi] ->].
  - intros m. unfold sign_test. eauto.
  - simpl. eauto.
Qed.

Lemma newMoonWeek_total today s q : is_Some (_newMoonWeek today s q).
Proof.
  unfold _newMoonWeek.
  destruct (JS.strict_eq s _); [|eauto].
  destruct (JS.strict_eq q 0); [|eauto].
  destruct (moonPhase_returns (Date.getTime today - 6 * 86400000)%Z) as [w ->].
  simpl. eauto.
Qed.

Lemma CalendarDate_fields_total date : is_Some (CalendarDate_fields H date).
Proof.
  unfold CalendarDate_fields.
  destruct (moonPhase_returns (astro_endOfDay (Date.midnight H date)))
    as [q ->].
  cbn [bind_opt].
  match goal with |- context [bind_opt ?c _] =>
    assert (Hc : is_Some c)
  end.
  { destruct (JS.strict_ne _ _); [|eauto].
    match goal with |- context [_findSplitFraction ?t ?s] =>
      destruct (findSplitFraction_total t s) as [f ->]
    end. simpl. eauto. }
  destruct Hc as [sf ->]. cbn [bind_opt].
  match goal with |- context [_newMoonWeek ?t ?s ?l] =>
    destruct (newMoonWeek_total t s l) as [w ->]
  end. cbn [bind_opt]. eauto.
Qed.

Lemma next_total this h :
  this < length h ->
  exists h1, next H this h = Some (length h, h1) /\ length h1 = S (length h).
Proof.
  intros Hlt.
  destruct (lookup_lt_is_Some_2 h this Hlt) as [o Ho].
  destruct (CalendarDate_fields_total (next_date H o)) as [n Hn].
  unfold next, bind, read, new_CalendarDate, lift, alloc, modify, ret.
  rewrite Ho. unfold bind. rewrite Hn.
  rewrite list_lookup_middle by reflexivity.
  destruct (JS.strict_eq (mLunarPhase o) (mLunarPhase n)).
  - rewrite list_lookup_middle by reflexivity. rewrite insert_snoc.
    eexists. split; [reflexivity|]. rewrite length_app. simpl. lia.
  - rewrite lookup_app_l by assumption. rewrite Ho.
    rewrite insert_app_l by assumption.
    set (h' := <[this := set_mIsPhaseEnd true o]> h).
    assert (Hlen : length h = length h') by (symmetry; apply length_insert).
    rewrite Hlen.
    rewrite list_lookup_middle by reflexivity. rewrite insert_snoc.
    destruct (findPhaseFraction_total n) as [f ->].
    rewrite list_lookup_middle by reflexivity. rewrite insert_snoc.
    rewrite list_lookup_middle by reflexivity. rewrite insert_snoc.
    eexists. split; [reflexivity|]. rewrite length_app. simpl. lia.
Qed.

Lemma season_loop_total n : forall target current cal b h,
  length h = S current ->
  is_Some (season_loop H n target current cal b h).
Proof.
  induction n as [|n IH]; intros target current cal b h Hlen; simpl.
  - unfold ret. eauto.
  - unfold bind at 1. unfold read.
    destruct (lookup_lt_is_Some_2 h current) as [c ->]; [lia|].
    destruct (JS.strict_ne (mSeason c) target); [unfold ret; eauto|].
    destruct (next_total current h) as (h1 & E & Hl); [lia|].
    unfold bind. rewrite E. apply IH. exact Hl.
Qed.

Lemma constructSeason_total date h : is_Some (constructSeason H date h).
Proof.
  unfold constructSeason.
  destruct (CalendarDate_fields_total (findFirstInSeason H date)) as [o Ho].
  unfold bind at 1. unfold new_CalendarDate, bind, lift, alloc. rewrite Ho.
  unfold modify. rewrite list_lookup_middle by reflexivity.
  rewrite insert_snoc. unfold read.
  rewrite list_lookup_middle by reflexivity.
  apply season_loop_total. rewrite length_app. simpl. lia.
Qed.

End Totality.

(** ** The season layout *)

(** C1 (as the code has it): in every layout [constructSeason] produces, two
    neighbouring days are either in the same lunar quarter, and then the
    second lies in the same row ([y] unchanged, [x] greater by 0.5) with
    neither [mIsPhaseEnd] of the first nor [mIsPhaseStart] of the second set,
    or in different quarters, and then the second lies half a unit lower and
    19/6 to the left with BOTH flags set. *)
Theorem season_tiling (H : Host) (A : AstroAPI) (date : Date.t)
    (h : heap) (cal : list ref) (b : Bounds) (h' : heap) :
  constructSeason H date h = Some ((cal, b), h') -> all_tiled h' cal.
Proof.
  intros E.
  apply constructSeason_Some in E as (current & c & h0 & b0 & I & _ & E).
  exact (proj1 (season_loop_inv H 200 _ _ _ _ _ _ _ _ I E)).
Qed.

Lemma season_tiling_spring_2024 :
  exists cal b h,
    Example.spring_2024 = Some ((cal, b), h) /\ length cal = 92%nat /\
    all_tiled h cal.
Proof.
  do 3 eexists. split; [vm_compute; reflexivity|]. split; [reflexivity|].
  eapply (season_tiling RefHost.utc Example.utc_astro
            (Example.day 2024 5 15) []).
  vm_compute. reflexivity.
Defined.

(** The claim fails as worded: 24 and 25 March 2024 are neighbours in the
    layout of spring 2024, the moon turns full in between, and both
    [mIsPhaseEnd] of the first and [mIsPhaseStart] of the second are set. *)
Lemma spring_2024_both_flags :
  exists cal b h D1 D2,
    Example.spring_2024 = Some ((cal, b), h) /\
    records h cal !! 4%nat = Some D1 /\ records h cal !! 5%nat = Some D2 /\
    ~ tiling_claim D1 D2.
Proof.
  do 5 eexists. split; [vm_compute; reflexivity|].
  split; [vm_compute; reflexivity|]. split; [vm_compute; reflexivity|].
  intros [[Hy _] | (_ & _ & Hx)].
  - apply (f_equal Prim2SF) in Hy. vm_compute in Hy. discriminate.
  - vm_compute in Hx. discriminate.
Qed.

(** ** The iteration caps *)

(** C4 (as the code has it): running out of the 200 iterations raises
    nothing.  [findFirstInSeason] falls back to the midnight of the date it
    was given; [constructSeason] returns the days it has pushed, at most 200;
    and [constructSeason] returns whenever the calls of [Astro.moonPhase]
    do. *)
Theorem cap_returns_without_error (H : Host) (A : AstroAPI) (date : Date.t) :
  (findFirst_loop 200
     (astro_season (astro_endOfDay (Date.midnight H date)))
     (Date.midnight H date) = None ->
   findFirstInSeason H date = Date.midnight H date) /\
  (forall h cal b h',
     constructSeason H date h = Some ((cal, b), h') ->
     (length cal <= 200)%nat) /\
  ((forall d, is_Some (astro_moonPhase d)) ->
   forall h, is_Some (constructSeason H date h)).
Proof.
  split; [|split].
  - intros E. unfold findFirstInSeason. rewrite E. reflexivity.
  - intros h cal b h' E.
    apply constructSeason_Some in E as (current & c & h0 & b0 & I & _ & E).
    destruct (season_loop_inv H 200 _ _ _ _ _ _ _ _ I E) as (_ & L & _).
    simpl in L. lia.
  - intros T h. apply constructSeason_total. exact T.
Qed.

Lemma cap_returns_without_error_stuck :
  findFirstInSeason RefHost.utc (A := Example.stuck_astro)
    (Example.day 2024 5 15) = Date.midnight RefHost.utc (Example.day 2024 5 15)
  /\ is_Some (constructSeason RefHost.utc (A := Example.stuck_astro)
                (Example.day 2024 5 15) []).
Proof.
  destruct (cap_returns_without_error RefHost.utc Example.stuck_astro
              (Example.day 2024 5 15)) as (F & _ & T).
  split.
  - apply F. vm_compute. reflexivity.
  - apply T. intros d. simpl. eauto.
Defined.

(** The claim fails as worded: with a season that never changes, both loops
    use up their 200 iterations, and what comes back is the fallback date and
    a layout cut off at 200 days, not an error. *)
Lemma cap_exhausted_returns :
  findFirst_loop (A := Example.stuck_astro) 200 0%float
    (Date.midnight RefHost.utc (Example.day 2024 5 15)) = None /\
  findFirstInSeason RefHost.utc (A := Example.stuck_astro)
    (Example.day 2024 5 15) = Example.day 2024 5 15 /\
  exists cal b h,
    constructSeason RefHost.utc (A := Example.stuck_astro)
      (Example.day 2024 5 15) [] = Some ((cal, b), h) /\
    length cal = 200%nat.
Proof.
  split; [vm_compute; reflexivity|]. split; [vm_compute; reflexivity|].
  do 3 eexists. split; [vm_compute; reflexivity | reflexivity].
Qed.

(** ** The constructor *)

(** What the constructor computes, field by field. *)
Lemma CalendarDate_fields_Some (H : Host) (A : AstroAPI) (date : Date.t)
    (o : CalendarDate) :
  CalendarDate_fields H date = Some o ->
  _today o = Date.midnight H date /\
  mTropicalPhase o = astro_sign (astro_endOfDay (Date.midnight H date)) /\
  astro_moonPhase (astro_endOfDay (Date.midnight H date))
    = Some (mLunarPhase o) /\
  mSeason o = astro_season (astro_endOfDay (Date.midnight H date)) /\
  mSignStart o = astro_sign (Date.midnight H date) /\
  (if JS.strict_ne (mSignStart o) (mTropicalPhase o)
   then _findSplitFraction (Date.midnight H date) (mSignStart o)
        = mSplitFraction o /\ mSplitFraction o <> None
   else mSplitFraction o = None) /\
  _newMoonWeek (Date.midnight H date) (mSeason o) (mLunarPhase o)
    = Some (mNewMoonWeek o).
Proof.
  unfold CalendarDate_fields.
  generalize (Date.midnight H date). intros today.
  generalize (astro_endOfDay today). intros tomorrow.
  destruct (astro_moonPhase tomorrow) as [q|]; [|discriminate].
  cbn [bind_opt].
  destruct (JS.strict_ne (astro_sign today) (astro_sign tomorrow)) eqn:Hne.
  - destruct (_findSplitFraction today (astro_sign today)) as [f|] eqn:Hf;
      [|discriminate].
    cbn [bind_opt].
    destruct (_newMoonWeek today (astro_season tomorrow) q) as [w|] eqn:W;
      [|discriminate].
    cbn [bind_opt]. intros E. apply Some_eq in E. subst o.
    cbn [_today mTropicalPhase mLunarPhase mSeason mSignStart mSplitFraction
         mNewMoonWeek].
    rewrite Hne. repeat split; auto.
  - cbn [bind_opt].
    destruct (_newMoonWeek today (astro_season tomorrow) q) as [w|] eqn:W;
      [|discriminate].
    cbn [bind_opt]. intros E. apply Some_eq in E. subst o.
    cbn [_today mTropicalPhase mLunarPhase mSeason mSignStart mSplitFraction
         mNewMoonWeek].
    rewrite Hne. repeat split; auto.
Qed.

(** [_newMoonWeek], with the instant it reads written out. *)
Lemma newMoonWeek_unfold (A : AstroAPI) (today : Date.t) (s q : float) :
  _newMoonWeek today s q =
  if JS.strict_eq s (astro_season (today - 6 * 86400000)%Z) then
    if JS.strict_eq q 0 then
      bind_opt (astro_moonPhase (today - 6 * 86400000)%Z)
        (fun q3 => Some (JS.strict_eq q3 3))
    else Some false
  else Some false.
Proof. reflexivity. Qed.

(** ** The new-moon week *)

(** [mNewMoonWeek] is set exactly when the day's lunar quarter is 0 and
    [Astro.season] and [Astro.moonPhase], evaluated AT the instant six times
    86 400 000 ms before the day's midnight (not at the end of the day that
    instant falls in), give the day's season and the quarter 3. *)
Theorem newMoonWeek_iff (H : Host) (A : AstroAPI) (date : Date.t)
    (o : CalendarDate) :
  CalendarDate_fields H date = Some o ->
  mNewMoonWeek o = true <->
  (JS.strict_eq (mLunarPhase o) 0 = true /\
   JS.strict_eq (mSeason o) (astro_season (_today o - 6 * 86400000)%Z) = true /\
   exists q, astro_moonPhase (_today o - 6 * 86400000)%Z = Some q /\
             JS.strict_eq q 3 = true).
Proof.
  intros E.
  apply CalendarDate_fields_Some in E as (Ht & _ & _ & _ & _ & _ & W).
  rewrite Ht. rewrite newMoonWeek_unfold in W.
  revert W. generalize (Date.midnight H date). intros today.
  generalize (today - 6 * 86400000)%Z. intros ago W.
  destruct (JS.strict_eq (mSeason o) (astro_season ago)).
  - destruct (JS.strict_eq (mLunarPhase o) 0).
    + destruct (astro_moonPhase ago) as [q3|]; [|discriminate].
      cbn [bind_opt] in W. apply Some_eq in W. rewrite <- W. split.
      * intros Hq. repeat split; eauto.
      * intros (_ & _ & q' & Hq' & Hq3). apply Some_eq in Hq'. subst q'.
        exact Hq3.
    + apply Some_eq in W. rewrite <- W. split; [discriminate|].
      intros (F & _). discriminate.
  - apply Some_eq in W. rewrite <- W. split; [discriminate|].
    intros (_ & F & _). discriminate.
Qed.

Lemma newMoonWeek_iff_april_2024 :
  exists o,
    CalendarDate_fields RefHost.utc (A := Example.utc_astro)
      (Example.day 2024 4 10) = Some o /\
    (mNewMoonWeek o = true <->
     (JS.strict_eq (mLunarPhase o) 0 = true /\
      JS.strict_eq (mSeason o)
        (@astro_season Example.utc_astro
           (_today o - 6 * 86400000)%Z) = true /\
      exists q, @astro_moonPhase Example.utc_astro
                  (_today o - 6 * 86400000)%Z = Some q /\
                JS.strict_eq q 3 = true)).
Proof.
  eexists. split; [vm_compute; reflexivity|].
  apply (newMoonWeek_iff RefHost.utc Example.utc_astro (Example.day 2024 4 10)).
  vm_compute. reflexivity.
Defined.

(** The instant matters: on 8 April 2024 (UTC) the quarter is 0, and the
    day record of 2 April, six days earlier, has quarter 3 and the same
    season (both read at the end of 2 April), yet [mNewMoonWeek] of 8 April
    is false: the code read the quarter at the start of 2 April, when it was
    still 2. *)
Lemma newMoonWeek_six_days_before :
  exists D E,
    CalendarDate_fields RefHost.utc (A := Example.utc_astro)
      (Example.day 2024 4 8) = Some D /\
    CalendarDate_fields RefHost.utc (A := Example.utc_astro)
      (Example.day 2024 4 2) = Some E /\
    _today E = (_today D - 6 * 86400000)%Z /\
    JS.strict_eq (mLunarPhase D) 0 = true /\
    JS.strict_eq (mLunarPhase E) 3 = true /\
    JS.strict_eq (mSeason E) (mSeason D) = true /\
    @astro_moonPhase Example.utc_astro
      (@astro_endOfDay Example.utc_astro (_today D - 6 * 86400000)%Z)
      = Some 3%float /\
    mNewMoonWeek D = false.
Proof.
  do 2 eexists. split; [vm_compute; reflexivity|].
  split; [vm_compute; reflexivity|].
  repeat split; vm_compute; reflexivity.
Qed.

(** ** The solver of Kepler's equation *)

(** The loop of [sunPosition] repeats Newton's step for as long as
    [|dl| >= 1e-12] and for no other reason.  It is left at the first round
    whose residual is not [>= 1e-12] (below it, or NaN), however many rounds
    that takes, with the [dl] and [e] of that round: there is no iteration
    cap and no error outcome. *)
Theorem kepler_loop_exit (sin cos : float -> float) (n : nat)
    (x e0 dl e : float) :
  Astro.kepler_loop sin cos n x e0 = Some (dl, e) <->
  exists k, (k < n)%nat /\
    (forall i, (i < k)%nat ->
       kepler_continue sin cos x (kepler_iterate sin cos i x e0) = true) /\
    kepler_continue sin cos x (kepler_iterate sin cos k x e0) = false /\
    Astro.kepler_step sin cos x (kepler_iterate sin cos k x e0) = (dl, e).
Proof.
  revert e0. induction n as [|n IH]; intros e0.
  - simpl. split; [discriminate|]. intros (k & Hk & _). lia.
  - cbn [Astro.kepler_loop]. unfold kepler_continue in *.
    destruct (Astro.kepler_step sin cos x e0) as [dl0 e1] eqn:S0.
    destruct (JS.geb (JS.Math_abs dl0) Astro.SMALL_FLOAT) eqn:G.
    + rewrite IH. split.
      * intros (k & Hk & Hc & Hs & He). exists (S k). split; [lia|].
        cbn [kepler_iterate]. rewrite S0. cbn [snd].
        split; [|auto].
        intros [|i] Hi; cbn [kepler_iterate].
        -- rewrite S0. exact G.
        -- rewrite S0. cbn [snd]. apply Hc. lia.
      * intros ([|k] & Hk & Hc & Hs & He).
        -- cbn [kepler_iterate] in Hs. rewrite S0 in Hs. cbn [fst] in Hs.
           congruence.
        -- exists k. split; [lia|].
           cbn [kepler_iterate] in Hs, He. rewrite S0 in Hs, He.
           cbn [snd] in Hs, He. split; [|auto].
           intros i Hi. specialize (Hc (S i)).
           cbn [kepler_iterate] in Hc. rewrite S0 in Hc. apply Hc. lia.
    + split.
      * intros E. apply Some_eq in E. exists O. split; [lia|].
        cbn [kepler_iterate]. rewrite S0. split; [intros i Hi; lia|].
        split; [exact G | exact E].
      * intros ([|k] & Hk & Hc & Hs & He).
        -- cbn [kepler_iterate] in He. rewrite S0 in He. rewrite He.
           reflexivity.
        -- assert (Hc0 := Hc O ltac:(lia)).
           cbn [kepler_iterate] in Hc0. rewrite S0 in Hc0.
           cbn [fst] in Hc0. congruence.
Qed.

(** For a NaN argument the loop is left after its first round although the
    residual, NaN, is not below 1e-12, and [sunPosition] returns NaN without
    reporting anything. *)
Lemma kepler_nan_silent :
  Astro.sunPosition RefHost.utc 1 nan = Some nan /\
  ~ kepler_converges_within RefHost.sin RefHost.cos 50 nan.
Proof.
  split; [vm_compute; reflexivity|].
  intros (n & dl & e & _ & L & R).
  destruct n as [|n]; [discriminate|].
  cbn [Astro.kepler_loop] in L.
  assert (S0 : Astro.kepler_step RefHost.sin RefHost.cos nan nan = (nan, nan))
    by (vm_compute; reflexivity).
  rewrite S0 in L.
  change (JS.geb (JS.Math_abs nan) Astro.SMALL_FLOAT) with false in L.
  apply Some_pair_eq in L as [<- _].
  vm_compute in R. discriminate.
Qed.

(** ** The binary search *)

Lemma all_brackets_sound n (P : float -> float -> bool) test :
  forall lo hi lo' hi',
    all_brackets n P lo hi = true ->
    bisect n test lo hi = Some (lo', hi') -> P lo' hi' = true.
Proof.
  induction n as [|n IH]; intros lo hi lo' hi' C B.
  - simpl in B. apply Some_pair_eq in B as [<- <-]. exact C.
  - cbn [all_brackets] in C. cbn [bisect] in B.
    apply andb_prop in C as [C1 C2].
    apply bind_opt_Some in B as ([|] & _ & B); eauto.
Qed.

Lemma bisect_bracket n test :
  forall lo hi lo' hi',
    bisect n test lo hi = Some (lo', hi') ->
    (lo' = lo \/ test lo' = Some true) /\ (hi' = hi \/ test hi' = Some false).
Proof.
  induction n as [|n IH]; intros lo hi lo' hi' B.
  - simpl in B. apply Some_pair_eq in B as [<- <-]. auto.
  - cbn [bisect] in B. apply bind_opt_Some in B as (b & T & B).
    destruct b; apply IH in B as [[->|L] [->|R]]; auto.
Qed.

(** Every bracket 20 halvings of [0, 1] can reach has the shape
    [f - 2^-21, f + 2^-21] and the width 2^-20: checked on all 2^20 of
    them. *)
Lemma brackets_20 : all_brackets 20 bracket_shape 0 1 = true.
Proof. vm_compute. reflexivity. Qed.

Lemma bisect_20_bracketed test lo hi :
  bisect 20 test 0 1 = Some (lo, hi) -> bracketed test ((lo + hi) / 2).
Proof.
  intros B.
  pose proof (all_brackets_sound 20 bracket_shape test _ _ _ _ brackets_20 B)
    as S.
  unfold bracket_shape in S.
  apply andb_prop in S as [S S3]. apply andb_prop in S as [S1 S2].
  apply FloatAxioms.Leibniz.eqb_spec in S1, S2, S3.
  apply bisect_bracket in B as [L R].
  exists lo, hi. repeat split; auto.
Qed.

(** ** More on the binary search *)

Section Search.
Context {A : AstroAPI}.

Lemma findSplitFraction_bracketed (today : Date.t) (s f : float) :
  _findSplitFraction today s = Some f -> bracketed (sign_test today s) f.
Proof.
  unfold _findSplitFraction. intros E.
  apply bind_opt_Some in E as ([lo hi] & B & E).
  apply Some_eq in E. subst f. eapply bisect_20_bracketed; eauto.
Qed.

(** When the sun's sign differs between the start and the end of the day,
    the constructor stores a split fraction, and that fraction is the
    midpoint of the last bracket of the search: the sign is still the
    morning's 2^-21 of a day before it (unless the bracket still starts at
    0) and no longer 2^-21 after it (unless the bracket still ends at 1).
    When the two signs agree it stores [null]. *)
Theorem splitFraction_bracketed (H : Host) (date : Date.t) (o : CalendarDate) :
  CalendarDate_fields H date = Some o ->
  if JS.strict_ne (mSignStart o) (mTropicalPhase o)
  then exists f, mSplitFraction o = Some f /\
                 bracketed (sign_test (_today o) (mSignStart o)) f
  else mSplitFraction o = None.
Proof.
  intros E.
  apply CalendarDate_fields_Some in E as (Ht & _ & _ & _ & _ & Hs & _).
  destruct (JS.strict_ne (mSignStart o) (mTropicalPhase o)); [|exact Hs].
  destruct Hs as [Hf Hn]. rewrite <- Ht in Hf.
  destruct (mSplitFraction o) as [f|]; [|congruence].
  exists f. split; [reflexivity|].
  apply findSplitFraction_bracketed. exact Hf.
Qed.

(** [_findPhaseFraction()] returns the midpoint of the last bracket of its
    search for the instant the moon leaves the quarter before
    [mLunarPhase]. *)
Theorem phaseFraction_bracketed (o : CalendarDate) (f : float) :
  _findPhaseFraction o = Some f ->
  bracketed (phase_test (_today o) (JS.rem (mLunarPhase o + 3) 4)) f.
Proof.
  unfold _findPhaseFraction. intros E.
  apply bind_opt_Some in E as ([lo hi] & B & E).
  apply Some_eq in E. subst f. eapply bisect_20_bracketed; eauto.
Qed.

End Search.

(** The sun enters Aries in the course of 20 March 2024. *)
Lemma splitFraction_bracketed_equinox_2024 :
  exists o,
    CalendarDate_fields RefHost.utc (A := Example.utc_astro)
      (Example.day 2024 3 20) = Some o /\
    if JS.strict_ne (mSignStart o) (mTropicalPhase o)
    then exists f, mSplitFraction o = Some f /\
           bracketed (sign_test (A := Example.utc_astro)
                        (_today o) (mSignStart o)) f
    else mSplitFraction o = None.
Proof.
  eexists. split; [vm_compute; reflexivity|].
  apply (splitFraction_bracketed (A := Example.utc_astro) RefHost.utc
           (Example.day 2024 3 20)).
  vm_compute. reflexivity.
Defined.

(** The moon turns full in the course of 25 March 2024. *)
Lemma phaseFraction_bracketed_march_2024 :
  exists o f,
    CalendarDate_fields RefHost.utc (A := Example.utc_astro)
      (Example.day 2024 3 25) = Some o /\
    _findPhaseFraction (A := Example.utc_astro) o = Some f /\
    bracketed (phase_test (A := Example.utc_astro) (_today o)
                 (JS.rem (mLunarPhase o + 3) 4)) f.
Proof.
  do 2 eexists. split; [vm_compute; reflexivity|].
  split; [vm_compute; reflexivity|].
  apply (phaseFraction_bracketed (A := Example.utc_astro)).
  vm_compute. reflexivity.
Defined.

(** ** What [next()] changes *)

Lemma pair_eq {X Y} (a c : X) (b d : Y) : (a, b) = (c, d) -> a = c /\ b = d.
Proof. intros E. injection E. auto. Qed.

Lemma set_mPlace_same o : set_mPlace (mPlace o) o = o.
Proof. destruct o. reflexivity. Qed.

Section Frame.
Variable H : Host.
Context {A : AstroAPI}.

Local Open Scope nat_scope.

(** The store after [next()]: one object more, the others as they were, the
    receiver at most with [mIsPhaseEnd] set. *)
Lemma next_store (this : ref) (h : heap) (nxt : ref) (h1 : heap) :
  next H this h = Some (nxt, h1) ->
  nxt = length h /\ length h1 = S (length h) /\
  (forall r, r <> this -> r < length h -> h1 !! r = h !! r) /\
  exists o o', h !! this = Some o /\ h1 !! this = Some o' /\
               same_but_end o o'.
Proof.
  intros E.
  apply next_Some in E as (o & n & Ho & -> & Hn & Hcase).
  pose proof (lookup_lt_Some _ _ _ Ho) as Hlt.
  split; [reflexivity|].
  destruct Hcase as [(Hq & ->) | (Hq & f & Hf & ->)].
  - split; [rewrite length_app; simpl; lia|]. split.
    + intros r _ Hr. apply lookup_app_l. exact Hr.
    + exists o, o. split; [exact Ho|]. split; [|left; reflexivity].
      rewrite lookup_app_l by exact Hlt. exact Ho.
  - set (h' := <[this := set_mIsPhaseEnd true o]> h).
    assert (Hlen : length h' = length h) by apply length_insert.
    split; [rewrite length_app; simpl; lia|]. split.
    + intros r Hne Hr. rewrite lookup_app_l by lia.
      unfold h'. apply list_lookup_insert_ne. auto.
    + exists o, (set_mIsPhaseEnd true o). split; [exact Ho|].
      split; [|right; reflexivity].
      rewrite lookup_app_l by lia. unfold h'.
      apply list_lookup_insert_eq. exact Hlt.
Qed.


End Frame.

(** ** The days of a layout *)

Section Days.
Variable H : Host.
Context {A : AstroAPI}.

Local Open Scope nat_scope.

(** One round of the loop of [constructSeason]. *)
Lemma season_loop_step n target current cal b h res :
  season_loop H (S n) target current cal b h = Some res ->
  exists c, h !! current = Some c /\
    if JS.strict_ne (mSeason c) target then res = ((cal, b), h)
    else exists nxt h1 b1,
           next H current h = Some (nxt, h1) /\
           season_loop H n target nxt (cal ++ [current]) b1 h1 = Some res.
Proof.
  cbn [season_loop]. intros E.
  apply bind_Some in E as (c & h0 & E1 & E).
  apply read_Some in E1 as [Hc ->].
  exists c. split; [exact Hc|].
  destruct (JS.strict_ne (mSeason c) target).
  - unfold ret in E. apply Some_eq in E. auto.
  - apply bind_Some in E as (nxt & h1 & E2 & E). eauto.
Qed.

(** The loop only appends to the list. *)
Lemma season_loop_extends n : forall target current cal b h cal' b' h',
  season_loop H n target current cal b h = Some ((cal', b'), h') ->
  exists l, cal' = cal ++ l.
Proof.
  induction n as [|n IH]; intros target current cal b h cal' b' h' E.
  - simpl in E. unfold ret in E. apply Some_pair_eq in E as [E _].
    apply (f_equal fst) in E. simpl in E. subst cal'.
    exists []. symmetry. apply app_nil_r.
  - apply season_loop_step in E as (c & Hc & E).
    destruct (JS.strict_ne (mSeason c) target).
    + apply pair_eq in E as [E _].
      apply (f_equal fst) in E. simpl in E. subst cal'.
      exists []. symmetry. apply app_nil_r.
    + destruct E as (nxt & h1 & b1 & _ & E).
      apply IH in E as (l & ->).
      exists ([current] ++ l). symmetry. apply app_assoc.
Qed.

(** The loop never touches an object older than [current]. *)
Lemma season_loop_older n : forall target current cal b h cal' b' h',
  length h = S current ->
  season_loop H n target current cal b h = Some ((cal', b'), h') ->
  forall r, r < current -> h' !! r = h !! r.
Proof.
  induction n as [|n IH]; intros target current cal b h cal' b' h' Hlen E r Hr.
  - simpl in E. unfold ret in E. apply Some_pair_eq in E as [_ <-].
    reflexivity.
  - apply season_loop_step in E as (c & Hc & E).
    destruct (JS.strict_ne (mSeason c) target).
    + apply pair_eq in E as [_ <-]. reflexivity.
    + destruct E as (nxt & h1 & b1 & E2 & E).
      apply next_store in E2 as (-> & Hl1 & Hother & _).
      rewrite (IH _ _ _ _ _ _ _ _ Hl1 E r) by lia.
      apply Hother; lia.
Qed.

(** Of [current] itself the loop changes at most [mIsPhaseEnd]. *)
Lemma season_loop_current n target current cal b h cal' b' h' o :
  length h = S current ->
  season_loop H n target current cal b h = Some ((cal', b'), h') ->
  h !! current = Some o ->
  exists o', h' !! current = Some o' /\ same_but_end o o'.
Proof.
  intros Hlen E Ho. destruct n as [|n].
  - simpl in E. unfold ret in E. apply Some_pair_eq in E as [_ <-].
    exists o. split; [exact Ho | left; reflexivity].
  - apply season_loop_step in E as (c & Hc & E).
    destruct (JS.strict_ne (mSeason c) target).
    + apply pair_eq in E as [_ <-].
      exists o. split; [exact Ho | left; reflexivity].
    + destruct E as (nxt & h1 & b1 & E2 & E).
      apply next_store in E2 as (-> & Hl1 & _ & (o0 & o' & Ho0 & Ho' & S)).
      rewrite Ho in Ho0. apply Some_eq in Ho0. subst o0.
      rewrite (season_loop_older _ _ _ _ _ _ _ _ _ Hl1 E current) by lia.
      exists o'. split; [exact Ho' | exact S].
Qed.

(** Every day the loop pushes is in the target season, and the days pushed
    before stay in the list, in their order. *)
Lemma season_loop_seasons n : forall target current cal b h cal' b' h',
  length h = S current ->
  Forall (fun r => r < current) cal ->
  Forall (in_season target h) cal ->
  season_loop H n target current cal b h = Some ((cal', b'), h') ->
  Forall (in_season target h') cal' /\ exists l, cal' = cal ++ l.
Proof.
  induction n as [|n IH];
    intros target current cal b h cal' b' h' Hlen Hold Hin E.
  - simpl in E. unfold ret in E. apply Some_pair_eq in E as [E <-].
    apply (f_equal fst) in E. simpl in E. subst cal'.
    split; [exact Hin|]. exists []. symmetry. apply app_nil_r.
  - apply season_loop_step in E as (c & Hc & E).
    destruct (JS.strict_ne (mSeason c) target) eqn:Hs.
    + apply pair_eq in E as [E <-].
      apply (f_equal fst) in E. simpl in E. subst cal'.
      split; [exact Hin|]. exists []. symmetry. apply app_nil_r.
    + destruct E as (nxt & h1 & b1 & E2 & E).
      apply next_store in E2
        as (-> & Hl1 & Hother & (o0 & o' & Ho0 & Ho' & S)).
      rewrite Hc in Ho0. apply Some_eq in Ho0. subst o0.
      destruct (IH target (length h) (cal ++ [current]) b1 h1 cal' b' h')
        as (F & l & ->); auto.
      * rewrite Forall_app. split.
        -- eapply Forall_impl; [exact Hold | simpl; intros; lia].
        -- constructor; [lia | constructor].
      * rewrite Forall_app. split.
        -- rewrite Forall_forall in Hin, Hold |- *.
           intros r Hr. destruct (Hin r Hr) as (cr & Hcr & Hsr).
           exists cr. split; [|exact Hsr].
           rewrite Hother; [exact Hcr | | eapply lookup_lt_Some; eauto].
           specialize (Hold r Hr). lia.
        -- constructor; [|constructor].
           exists o'. split; [exact Ho'|].
           destruct S as [-> | ->]; exact Hs.
      * split; [exact F|]. exists ([current] ++ l).
        symmetry. apply app_assoc.
Qed.

(** The layout [constructSeason] builds: the objects that existed before are
    untouched; the first day is the one the constructor makes of the date
    [findFirstInSeason] returns, placed at the origin; the layout is empty
    exactly when that day's season is NaN (it differs from itself); and
    every day of the layout has the first day's season. *)
Theorem constructSeason_days (date : Date.t) (h : heap) (cal : list ref)
    (b : Bounds) (h' : heap) :
  constructSeason H date h = Some ((cal, b), h') ->
  (forall r, r < length h -> h' !! r = h !! r) /\
  exists c0,
    CalendarDate_fields H (findFirstInSeason H date) = Some c0 /\
    mPlace c0 = {| x := 0; y := 0 |} /\
    (if JS.strict_ne (mSeason c0) (mSeason c0) then cal = []
     else exists rest c,
            cal = length h :: rest /\ h' !! length h = Some c /\
            same_but_end c0 c) /\
    Forall (in_season (mSeason c0) h') cal.
Proof.
  unfold constructSeason. intros E.
  apply bind_Some in E as (current & h1 & E1 & E).
  apply new_CalendarDate_Some in E1 as (o & Ho & -> & ->).
  apply bind_Some in E as (u & h2 & E2 & E).
  apply modify_Some in E2 as (o' & Ho' & ->).
  rewrite list_lookup_middle in Ho' by reflexivity.
  apply Some_eq in Ho'. subst o'.
  rewrite insert_snoc in E.
  apply bind_Some in E as (c & h3 & E3 & E).
  apply read_Some in E3 as [Hc ->].
  rewrite list_lookup_middle in Hc by reflexivity.
  apply Some_eq in Hc.
  pose proof (CalendarDate_fields_fresh H _ _ Ho) as (Hpl & _).
  rewrite <- Hpl, set_mPlace_same in Hc. subst c.
  rewrite <- Hpl, set_mPlace_same in E.
  assert (Hlen : length (h ++ [o]) = S (length h))
    by (rewrite length_app; simpl; lia).
  assert (Hcur : (h ++ [o]) !! length h = Some o)
    by (apply list_lookup_middle; reflexivity).
  split.
  { intros r Hr.
    rewrite (season_loop_older _ _ _ _ _ _ _ _ _ Hlen E r Hr).
    apply lookup_app_l. exact Hr. }
  exists o. split; [exact Ho|]. split; [exact Hpl|].
  destruct (season_loop_seasons _ _ _ _ _ _ _ _ _ Hlen
              (Forall_nil_2 _) (Forall_nil_2 _) E) as (F & _).
  split; [|exact F].
  destruct (season_loop_current _ _ _ _ _ _ _ _ _ _ Hlen E Hcur)
    as (c & Hc & Sc).
  apply season_loop_step in E as (c1 & Hc1 & E).
  rewrite Hcur in Hc1. apply Some_eq in Hc1. subst c1.
  destruct (JS.strict_ne (mSeason o) (mSeason o)).
  - apply pair_eq in E as [E _].
    apply (f_equal fst) in E. simpl in E. auto.
  - destruct E as (nxt & h1 & b1 & E2 & E).
    apply next_store in E2 as (-> & Hl1 & _).
    rewrite Hlen in Hl1.
    apply season_loop_extends in E as (l & ->).
    exists l, c. simpl. auto.
Qed.

End Days.


(** Spring 2024, laid out from an empty store. *)
Lemma constructSeason_days_spring_2024 :
  exists cal b h',
    Example.spring_2024 = Some ((cal, b), h') /\
    exists c0,
      CalendarDate_fields RefHost.utc (A := Example.utc_astro)
        (findFirstInSeason RefHost.utc (A := Example.utc_astro)
           (Example.day 2024 5 15)) = Some c0 /\
      mPlace c0 = {| x := 0; y := 0 |} /\
      (if JS.strict_ne (mSeason c0) (mSeason c0) then cal = []
       else exists rest c,
              cal = 0%nat :: rest /\ h' !! 0%nat = Some c /\
              same_but_end c0 c) /\
      Forall (in_season (mSeason c0) h') cal.
Proof.
  do 3 eexists. split; [vm_compute; reflexivity|].
  eapply (constructSeason_days RefHost.utc (A := Example.utc_astro)
            (Example.day 2024 5 15) []).
  vm_compute. reflexivity.
Defined.

(** ** The first day of the season *)

Section FirstDay.
Context {A : AstroAPI}.

Local Open Scope nat_scope.

Lemma days_before_S d0 i :
  (Date.getTime (days_before d0 i) - 86400000)%Z = days_before d0 (S i).
Proof. unfold days_before, Date.getTime. lia. Qed.

Lemma days_before_back d0 i :
  (Date.getTime (days_before d0 (S i)) + 86400000)%Z = days_before d0 i.
Proof. unfold days_before, Date.getTime. lia. Qed.

(** The loop, started [j] days before [d0]: it returns from inside at the
    first day whose season differs, with the day after it. *)
Lemma findFirst_loop_Some n target d0 : forall j r,
  findFirst_loop n target (days_before d0 j) = Some r ->
  exists k, j <= k < j + n /\ r = days_before d0 k /\
    (forall i, j < i <= k ->
       JS.strict_ne (season_of (days_before d0 i)) target = false) /\
    JS.strict_ne (season_of (days_before d0 (S k))) target = true.
Proof.
  induction n as [|n IH]; intros j r E; [discriminate|].
  cbn [findFirst_loop] in E. rewrite days_before_S in E.
  fold (season_of (days_before d0 (S j))) in E.
  destruct (JS.strict_ne (season_of (days_before d0 (S j))) target) eqn:Hs.
  - apply Some_eq in E. rewrite days_before_back in E. subst r.
    exists j. split; [lia|]. split; [reflexivity|].
    split; [intros i Hi; lia | exact Hs].
  - apply IH in E as (k & Hk & -> & Hall & Hd).
    exists k. split; [lia|]. split; [reflexivity|]. split; [|exact Hd].
    intros i Hi. destruct (Nat.eq_dec i (S j)) as [->|Hne]; [exact Hs|].
    apply Hall. lia.
Qed.



End FirstDay.

(** ** Civil dates *)

Lemma all_from_sound n P : forall lo,
  all_from n P lo = true ->
  forall D, (lo <= D < lo + Z.of_nat n)%Z -> P D = true.
Proof.
  induction n as [|n IH]; intros lo E D HD; [lia|].
  cbn [all_from] in E. apply andb_prop in E as [E0 E].
  destruct (Z.eq_dec D lo) as [->|Hne]; [exact E0|].
  apply (IH (lo + 1)%Z E). lia.
Qed.

Lemma all_from_Z n P lo :
  all_from (Z.to_nat n) P lo = true ->
  forall D, (lo <= D < lo + n)%Z -> P D = true.
Proof.
  intros E D HD. apply (all_from_sound _ _ _ E). rewrite Z2Nat.id; lia.
Qed.

(** The year of the era and the day of the year that [civil_from_days]
    computes from the day of the era. *)
Lemma year_of_era doe :
  0 <= doe < 146097 ->
  let yoe := (doe - doe / 1460 + doe / 36524 - doe / 146096) / 365 in
  let doy := doe - (365 * yoe + yoe / 4 - yoe / 100) in
  0 <= yoe <= 399 /\ 0 <= doy <= 365 /\
  (36465 <= doe -> 100 <= yoe \/ (yoe = 99 /\ 306 <= doy)).
Proof.
  intros Hd. cbv zeta. Z.div_mod_to_equations. lia.
Qed.

Lemma month_of_year doy :
  0 <= doy <= 365 ->
  let mp := (5 * doy + 2) / 153 in
  0 <= mp <= 11 /\ (306 <= doy -> 10 <= mp).
Proof. intros Hd. cbv zeta. Z.div_mod_to_equations. lia. Qed.

(** [MakeDay] of the date [civil_from_days] computes. *)
Lemma MakeDay_era era yoe mp d :
  0 <= yoe <= 399 -> 0 <= mp <= 11 ->
  let m := if mp <? 10 then mp + 3 else mp - 9 in
  let y := if m <=? 2 then yoe + era * 400 + 1 else yoe + era * 400 in
  Date.MakeDay y (m - 1) d
  = era * 146097 + (yoe * 365 + yoe / 4 - yoe / 100 + (153 * mp + 2) / 5 + d - 1)
    - 719468.
Proof.
  intros Hy Hm. cbv zeta. unfold Date.MakeDay, Date.days_from_civil.
  destruct (mp <? 10) eqn:Emp; [apply Z.ltb_lt in Emp | apply Z.ltb_ge in Emp].
  - replace (mp + 3 <=? 2) with false by (symmetry; apply Z.leb_gt; lia).
    replace ((mp + 3 - 1) / 12) with 0 by (Z.div_mod_to_equations; lia).
    replace ((mp + 3 - 1) mod 12 + 1) with (mp + 3)
      by (Z.div_mod_to_equations; lia).
    replace (mp + 3 <=? 2) with false by (symmetry; apply Z.leb_gt; lia).
    replace (2 <? mp + 3) with true by (symmetry; apply Z.ltb_lt; lia).
    cbv zeta.
    replace ((yoe + era * 400 + 0) / 400) with era
      by (Z.div_mod_to_equations; lia).
    replace (mp + 3 - 3) with mp by lia.
    replace (yoe + era * 400 + 0 - era * 400) with yoe by lia. lia.
  - replace (mp - 9 <=? 2) with true by (symmetry; apply Z.leb_le; lia).
    replace ((mp - 9 - 1) / 12) with 0 by (Z.div_mod_to_equations; lia).
    replace ((mp - 9 - 1) mod 12 + 1) with (mp - 9)
      by (Z.div_mod_to_equations; lia).
    replace (mp - 9 <=? 2) with true by (symmetry; apply Z.leb_le; lia).
    replace (2 <? mp - 9) with false by (symmetry; apply Z.ltb_ge; lia).
    cbv zeta.
    replace ((yoe + era * 400 + 1 + 0 - 1) / 400) with era
      by (Z.div_mod_to_equations; lia).
    replace (mp - 9 + 9) with mp by lia.
    replace (yoe + era * 400 + 1 + 0 - 1 - era * 400) with yoe by lia. lia.
Qed.

(** From the year 100 on, every day survives the constructor's round trip
    and has a successor by [d + 1]. *)
Lemma civil_round_trip D :
  (day_100 <= D)%Z ->
  exists y m d,
    Date.civil_from_days D = (y, m, d) /\ (99 < y)%Z /\
    Date.MakeDay y (m - 1) d = D /\
    Date.MakeDay y (m - 1) (d + 1) = (D + 1)%Z.
Proof.
  intros HD. unfold Date.civil_from_days. cbv zeta.
  remember (D + 719468) as z eqn:Ez.
  remember (z / 146097) as era eqn:Eera.
  remember (z - era * 146097) as doe eqn:Edoe.
  assert (Hdoe : 0 <= doe < 146097)
    by (subst doe era; Z.div_mod_to_equations; lia).
  assert (Hera : 0 <= era)
    by (subst era z; unfold day_100 in HD; Z.div_mod_to_equations; lia).
  pose proof (year_of_era doe Hdoe) as Y. cbv zeta in Y.
  remember ((doe - doe / 1460 + doe / 36524 - doe / 146096) / 365) as yoe
    eqn:Eyoe.
  remember (doe - (365 * yoe + yoe / 4 - yoe / 100)) as doy eqn:Edoy.
  destruct Y as (Hyoe & Hdoy & Hlate).
  pose proof (month_of_year doy Hdoy) as M. cbv zeta in M.
  remember ((5 * doy + 2) / 153) as mp eqn:Emp.
  destruct M as (Hmp & Hmlate).
  pose proof (MakeDay_era era yoe mp) as R. cbv zeta in R.
  do 3 eexists. split; [reflexivity|].
  rewrite !R by assumption.
  split; [|split; lia].
  destruct (mp <? 10) eqn:Cmp; [apply Z.ltb_lt in Cmp | apply Z.ltb_ge in Cmp].
  - replace (mp + 3 <=? 2) with false by (symmetry; apply Z.leb_gt; lia).
    destruct (Z.eq_dec era 0) as [E0|E0]; [|lia].
    assert (36465 <= doe) by (unfold day_100 in HD; lia).
    destruct (Hlate ltac:(assumption)) as [?|[? ?]]; lia.
  - replace (mp - 9 <=? 2) with true by (symmetry; apply Z.leb_le; lia).
    destruct (Z.eq_dec era 0) as [E0|E0]; [|lia].
    assert (36465 <= doe) by (unfold day_100 in HD; lia).
    destruct (Hlate ltac:(assumption)) as [?|[? ?]]; lia.
Qed.

(** The month and the day of the month of every day number. *)
Lemma civil_from_days_range D :
  let '(_, m, d) := Date.civil_from_days D in
  (1 <= m <= 12 /\ 1 <= d <= 31)%Z.
Proof.
  unfold Date.civil_from_days. cbv zeta.
  remember (D + 719468)%Z as z eqn:Ez.
  remember (z / 146097)%Z as era eqn:Eera.
  remember (z - era * 146097)%Z as doe eqn:Edoe.
  assert (Hdoe : (0 <= doe < 146097)%Z)
    by (subst doe era; Z.div_mod_to_equations; lia).
  pose proof (year_of_era doe Hdoe) as Y. cbv zeta in Y.
  remember ((doe - doe / 1460 + doe / 36524 - doe / 146096) / 365)%Z as yoe
    eqn:Eyoe.
  remember (doe - (365 * yoe + yoe / 4 - yoe / 100))%Z as doy eqn:Edoy.
  destruct Y as (_ & Hdoy & _).
  clear - Hdoy.
  destruct ((5 * doy + 2) / 153 <? 10)%Z eqn:C;
    [apply Z.ltb_lt in C | apply Z.ltb_ge in C];
    Z.div_mod_to_equations; lia.
Qed.

(** The years of the era that the window from 1 March 1900 to 28 February
    2100 meets. *)
Lemma year_window doe :
  (0 <= doe < 146097)%Z ->
  let yoe := ((doe - doe / 1460 + doe / 36524 - doe / 146096) / 365)%Z in
  let doy := (doe - (365 * yoe + yoe / 4 - yoe / 100))%Z in
  (0 <= yoe <= 399 /\ 0 <= doy <= 365 /\
   (109572 <= doe -> 300 <= yoe) /\ (doe <= 36523 -> yoe <= 99))%Z.
Proof.
  intros Hd. cbv zeta. Z.div_mod_to_equations. lia.
Qed.

(** ** Hosts with a fixed offset *)

Section FixedOffset.
Variable H : Host.
Variable c : Z.
Hypothesis Hfix : fixed_offset H c.

(** Local midnight of day [D]. *)
Lemma LocalTime_fixed t : Date.LocalTime H t = (t - c * Date.msPerMinute)%Z.
Proof. unfold Date.LocalTime. rewrite (proj1 Hfix). reflexivity. Qed.

Lemma UTC_fixed tl : Date.UTC H tl = (tl + c * Date.msPerMinute)%Z.
Proof. unfold Date.UTC. rewrite (proj2 Hfix). reflexivity. Qed.

Lemma new_ymd_fixed y mo d :
  (99 < y)%Z ->
  Date.new_ymd H y mo d
  = (Date.MakeDay y mo d * Date.msPerDay + c * Date.msPerMinute)%Z.
Proof.
  intros Hy. unfold Date.new_ymd.
  replace ((0 <=? y)%Z && (y <=? 99)%Z) with false
    by (symmetry; apply andb_false_intro2; apply Z.leb_gt; exact Hy).
  apply UTC_fixed.
Qed.

(** The constructor's normalisation: the local midnight of the civil day. *)
Lemma midnight_fixed t D :
  (Date.LocalTime H t / Date.msPerDay)%Z = D -> (day_100 <= D)%Z ->
  Date.midnight H t = (D * Date.msPerDay + c * Date.msPerMinute)%Z.
Proof.
  intros ED HD.
  destruct (civil_round_trip D HD) as (y & m & d & E & Hy & M1 & _).
  unfold Date.midnight, Date.getFullYear, Date.getMonth, Date.getDate.
  rewrite ED, E. rewrite new_ymd_fixed by exact Hy. rewrite M1. reflexivity.
Qed.

(** [new Date(y, m, d + 1)] of a day is the next local midnight. *)
Lemma tomorrow_fixed t D :
  (Date.LocalTime H t / Date.msPerDay)%Z = D -> (day_100 <= D)%Z ->
  Date.new_ymd H (Date.getFullYear H t) (Date.getMonth H t)
    (Date.getDate H t + 1)
  = ((D + 1) * Date.msPerDay + c * Date.msPerMinute)%Z.
Proof.
  intros ED HD.
  destruct (civil_round_trip D HD) as (y & m & d & E & Hy & _ & M2).
  unfold Date.getFullYear, Date.getMonth, Date.getDate.
  rewrite ED, E. rewrite new_ymd_fixed by exact Hy. rewrite M2. reflexivity.
Qed.

(** The local day of a local midnight. *)
Lemma local_day_of_midnight D :
  (Date.LocalTime H (D * Date.msPerDay + c * Date.msPerMinute)
     / Date.msPerDay)%Z = D.
Proof.
  rewrite LocalTime_fixed.
  replace (D * Date.msPerDay + c * Date.msPerMinute - c * Date.msPerMinute)%Z
    with (D * Date.msPerDay)%Z by lia.
  apply Z.div_mul. unfold Date.msPerDay. lia.
Qed.

End FixedOffset.
(** ** Invariants of the layout loop *)

Section LoopInvariants.
Variable H : Host.
Context {A : AstroAPI}.

Local Open Scope nat_scope.

(** The object [next()] returns, field by field. *)
Lemma next_new (this : ref) (h : heap) (nxt : ref) (h1 : heap) :
  next H this h = Some (nxt, h1) ->
  exists o n n',
    h !! this = Some o /\
    CalendarDate_fields H (next_date H o) = Some n /\
    h1 !! nxt = Some n' /\
    _today n' = _today n /\ mSeason n' = mSeason n /\
    mLunarPhase n' = mLunarPhase n /\
    if JS.strict_eq (mLunarPhase o) (mLunarPhase n)
    then mIsPhaseStart n' = false /\ mPhaseFraction n' = None
    else mIsPhaseStart n' = true /\
         exists f, mPhaseFraction n' = Some f /\
                   _findPhaseFraction n = Some f.
Proof.
  intros E.
  apply next_Some in E as (o & n & Ho & -> & Hn & Hcase).
  pose proof (CalendarDate_fields_fresh H _ _ Hn) as (_ & Hs & _ & Hf).
  destruct Hcase as [(Hq & ->) | (Hq & f & Hf' & ->)].
  - eexists o, n, _. split; [exact Ho|]. split; [exact Hn|].
    split; [apply list_lookup_middle; reflexivity|].
    rewrite Hq. repeat split; assumption.
  - eexists o, n, _. split; [exact Ho|]. split; [exact Hn|].
    split; [apply list_lookup_middle; rewrite length_insert; reflexivity|].
    rewrite Hq. repeat split. exists f. split; [reflexivity | exact Hf'].
Qed.

(** A property of the store, the list and the current day that one round of
    the loop preserves holds when the loop is left. *)
Lemma season_loop_preserves (I : heap -> list ref -> ref -> Prop) target :
  (forall h cal current c nxt h1,
     I h cal current -> h !! current = Some c ->
     JS.strict_ne (mSeason c) target = false ->
     next H current h = Some (nxt, h1) ->
     I h1 (cal ++ [current]) nxt) ->
  forall n current cal b h cal' b' h',
    I h cal current ->
    season_loop H n target current cal b h = Some ((cal', b'), h') ->
    exists current', I h' cal' current'.
Proof.
  intros Step. induction n as [|n IH];
    intros current cal b h cal' b' h' Inv E.
  - simpl in E. unfold ret in E. apply Some_pair_eq in E as [E <-].
    apply (f_equal fst) in E. simpl in E. subst cal'. eauto.
  - apply season_loop_step in E as (c & Hc & E).
    destruct (JS.strict_ne (mSeason c) target) eqn:Hs.
    + apply pair_eq in E as [E <-].
      apply (f_equal fst) in E. simpl in E. subst cal'. eauto.
    + destruct E as (nxt & h1 & b1 & E2 & E).
      eapply IH; [|exact E]. eapply Step; eauto.
Qed.

End LoopInvariants.
(** ** A layout is a run of consecutive days *)

Section Consecutive.
Variable H : Host.
Context {A : AstroAPI}.

Local Open Scope nat_scope.

(** [constructSeason] runs its loop from the day the constructor makes of
    [findFirstInSeason(date)], the newest object of the store. *)
Lemma constructSeason_start date h cal b h' :
  constructSeason H date h = Some ((cal, b), h') ->
  exists o b0,
    CalendarDate_fields H (findFirstInSeason H date) = Some o /\
    season_loop H 200 (mSeason o) (length h) [] b0 (h ++ [o])
    = Some ((cal, b), h').
Proof.
  unfold constructSeason. intros E.
  apply bind_Some in E as (current & h1 & E1 & E).
  apply new_CalendarDate_Some in E1 as (o & Ho & -> & ->).
  apply bind_Some in E as (u & h2 & E2 & E).
  apply modify_Some in E2 as (o' & Ho' & ->).
  rewrite list_lookup_middle in Ho' by reflexivity.
  apply Some_eq in Ho'. subst o'.
  rewrite insert_snoc in E.
  apply bind_Some in E as (c0 & h3 & E3 & E).
  apply read_Some in E3 as [Hc ->].
  rewrite list_lookup_middle in Hc by reflexivity.
  apply Some_eq in Hc.
  pose proof (CalendarDate_fields_fresh H _ _ Ho) as (Hpl & _).
  rewrite <- Hpl, set_mPlace_same in Hc. subst c0.
  rewrite <- Hpl, set_mPlace_same in E.
  eauto.
Qed.

(** [findFirstInSeason] returns an instant a whole number of days, fewer
    than 200, before local midnight of its argument, and the days it stepped
    over have the season of the argument. *)
Lemma findFirstInSeason_back date :
  exists k, k < 200 /\
    findFirstInSeason H date = days_before (Date.midnight H date) k /\
    forall i, 0 < i <= k ->
      JS.strict_ne (season_of (days_before (Date.midnight H date) i))
        (season_of (Date.midnight H date)) = false.
Proof.
  unfold findFirstInSeason. fold (season_of (Date.midnight H date)).
  generalize (Date.midnight H date). intros d0.
  assert (E0 : d0 = days_before d0 0) by (unfold days_before; lia).
  destruct (findFirst_loop 200 (season_of d0) d0) as [r|] eqn:E.
  - rewrite E0 in E at 2.
    apply findFirst_loop_Some in E as (k & Hk & -> & Hall & _).
    exists k. split; [lia|]. split; [reflexivity|].
    intros i Hi. apply Hall. lia.
  - exists 0. split; [lia|]. split; [exact E0|]. intros i Hi. lia.
Qed.

(** The constructor stores the season read at the end of its own day. *)
Lemma CalendarDate_fields_season date o :
  CalendarDate_fields H date = Some o -> mSeason o = season_of (_today o).
Proof.
  intros E.
  apply CalendarDate_fields_Some in E as (Ht & _ & _ & Hs & _).
  rewrite Hs, Ht. reflexivity.
Qed.

Variable c : Z.
Hypothesis Hfix : fixed_offset H c.

(** The day [next()] constructs after a local midnight is the next local
    midnight. *)
Lemma next_day_fixed o n D :
  _today o = local_midnight c D -> (day_100 <= D)%Z ->
  CalendarDate_fields H (next_date H o) = Some n ->
  _today n = local_midnight c (D + 1).
Proof.
  intros Eo HD En.
  apply CalendarDate_fields_Some in En as (-> & _).
  unfold next_date. rewrite Eo. unfold local_midnight.
  rewrite (tomorrow_fixed H c Hfix _ D (local_day_of_midnight H c Hfix D) HD).
  apply (midnight_fixed H c Hfix).
  - apply (local_day_of_midnight H c Hfix).
  - lia.
Qed.

(** One round of the loop keeps the run. *)
Lemma run_step D1 h cal current nxt h1 :
  (day_100 <= D1)%Z ->
  run_inv c D1 h cal current ->
  next H current h = Some (nxt, h1) ->
  run_inv c D1 h1 (cal ++ [current]) nxt.
Proof.
  intros HD1 (Hlen & Hold & Hdays) N.
  pose proof (next_store H _ _ _ _ N)
    as (-> & Hl3 & Hother & (o & o' & Ho & Ho' & Sb)).
  apply next_new in N as (o1 & n & n' & Ho1 & Hn & Hn' & Htn & Hsn & _).
  rewrite Ho in Ho1. apply Some_eq in Ho1. subst o1.
  destruct (Hdays (length cal) current) as (oc & Hoc & Htc & _).
  { apply list_lookup_middle. reflexivity. }
  rewrite Ho in Hoc. apply Some_eq in Hoc. subst oc.
  split; [lia|]. split.
  { rewrite Forall_app. split.
    - eapply Forall_impl; [exact Hold | simpl; intros; lia].
    - constructor; [lia | constructor]. }
  intros i r Hi.
  destruct (decide (i = length (cal ++ [current]))) as [->|Hne].
  - rewrite list_lookup_middle in Hi by reflexivity.
    apply Some_eq in Hi. subst r.
    exists n'. split; [exact Hn'|]. rewrite Htn, Hsn. split.
    + rewrite (next_day_fixed o n _ Htc ltac:(lia) Hn).
      f_equal. rewrite length_app. simpl. lia.
    + apply (CalendarDate_fields_season _ _ Hn).
  - assert (Hi' : (cal ++ [current]) !! i = Some r).
    { apply lookup_lt_Some in Hi as Hlt. rewrite length_app in Hlt.
      simpl in Hlt. rewrite lookup_app_l in Hi by lia. exact Hi. }
    destruct (Hdays i r Hi') as (x & Hx & Hxt & Hxs).
    destruct (decide (r = current)) as [->|Hr].
    + rewrite Ho in Hx. apply Some_eq in Hx. subst x.
      exists o'. split; [exact Ho'|].
      destruct Sb as [-> | ->]; split; assumption.
    + exists x. split; [|split; assumption].
      rewrite Hother; [exact Hx | exact Hr |].
      eapply lookup_lt_Some; eauto.
Qed.

(** The run starts with the day the constructor makes of a local
    midnight. *)
Lemma run_start D1 h o0 :
  (day_100 <= D1)%Z ->
  CalendarDate_fields H (local_midnight c D1) = Some o0 ->
  run_inv c D1 (h ++ [o0]) [] (length h).
Proof.
  intros HD1 Ho0.
  split; [rewrite length_app; simpl; lia|]. split; [constructor|].
  intros [|i] r Hi; simpl in Hi; [|discriminate].
  apply Some_eq in Hi. subst r. exists o0.
  split; [apply list_lookup_middle; reflexivity|]. split.
  - apply CalendarDate_fields_Some in Ho0 as (-> & _).
    rewrite Z.add_0_r.
    apply (midnight_fixed H c Hfix); [|exact HD1].
    apply (local_day_of_midnight H c Hfix).
  - apply (CalendarDate_fields_season _ _ Ho0).
Qed.

(** The day of [date], and the day [findFirstInSeason] returns, as local
    midnights. *)
Lemma first_day_fixed date :
  (Date.new_ymd H 101 0 1 <= date)%Z ->
  exists D k, k < 200 /\ (day_100 <= D - Z.of_nat k)%Z /\
    Date.midnight H date = local_midnight c D /\
    findFirstInSeason H date = local_midnight c (D - Z.of_nat k) /\
    forall i, i <= k ->
      i = 0 \/
      JS.strict_ne (season_of (local_midnight c (D - Z.of_nat i)))
        (season_of (local_midnight c D)) = false.
Proof.
  intros Hdate.
  rewrite (new_ymd_fixed H c Hfix) in Hdate by lia.
  change (Date.MakeDay 101 0 1) with (day_100 + 365)%Z in Hdate.
  remember (Date.LocalTime H date / Date.msPerDay)%Z as D eqn:ED.
  assert (HD : (day_100 + 365 <= D)%Z).
  { subst D. rewrite (LocalTime_fixed H c Hfix).
    apply Z.div_le_lower_bound; unfold Date.msPerDay, Date.msPerMinute in *;
      lia. }
  symmetry in ED.
  pose proof (midnight_fixed H c Hfix date D ED ltac:(lia)) as Hmid.
  destruct (findFirstInSeason_back date) as (k & Hk & Hfirst & Hover).
  rewrite Hmid in Hfirst, Hover.
  assert (Hback : forall i,
    days_before (D * Date.msPerDay + c * Date.msPerMinute)%Z i
    = local_midnight c (D - Z.of_nat i)).
  { intros i. unfold days_before, local_midnight, Date.msPerDay. lia. }
  exists D, k. split; [exact Hk|]. split; [lia|].
  split; [exact Hmid|]. split; [rewrite Hfirst; apply Hback|].
  intros [|i] Hi; [left; reflexivity | right].
  rewrite <- Hback. apply Hover. lia.
Qed.

(** On a host with a fixed offset, from the year 101 on, the layout is a run
    of consecutive days: its [i]-th day is the local midnight [i] times
    86 400 000 ms after the instant [findFirstInSeason] returned. *)
Theorem layout_consecutive (date : Date.t) (h : heap) (cal : list ref)
    (b : Bounds) (h' : heap) :
  (Date.new_ymd H 101 0 1 <= date)%Z ->
  constructSeason H date h = Some ((cal, b), h') ->
  forall i r, cal !! i = Some r ->
    exists o, h' !! r = Some o /\
      _today o = (findFirstInSeason H date + Z.of_nat i * 86400000)%Z.
Proof.
  intros Hdate E.
  destruct (first_day_fixed date Hdate) as (D & k & _ & HD1 & _ & Hfirst & _).
  apply constructSeason_start in E as (o0 & b0 & Ho0 & E).
  remember (D - Z.of_nat k)%Z as D1 eqn:ED1. clear ED1.
  rewrite Hfirst in *.
  pose proof (run_start D1 h o0 HD1 Ho0) as Inv0.
  destruct (season_loop_preserves H (run_inv c D1) (mSeason o0)
              ltac:(intros; eapply run_step; eauto)
              _ _ _ _ _ _ _ _ Inv0 E)
    as (cur & _ & _ & Hdays).
  intros i r Hi.
  destruct (Hdays i r) as (o & Ho & Ht & _).
  { apply lookup_app_l_Some. exact Hi. }
  exists o. split; [exact Ho|]. rewrite Ht.
  unfold local_midnight, Date.msPerDay. lia.
Qed.

End Consecutive.

(** Spring 2024 on the UTC host. *)
Lemma layout_consecutive_spring_2024 :
  exists cal b h',
    Example.spring_2024 = Some ((cal, b), h') /\
    forall i r, cal !! i = Some r ->
      exists o, h' !! r = Some o /\
        _today o = (findFirstInSeason RefHost.utc (A := Example.utc_astro)
                      (Example.day 2024 5 15) + Z.of_nat i * 86400000)%Z.
Proof.
  do 3 eexists. split; [vm_compute; reflexivity|].
  eapply (layout_consecutive RefHost.utc (A := Example.utc_astro) 0
            (conj (fun _ => eq_refl) (fun _ => eq_refl))
            (Example.day 2024 5 15) []).
  - vm_compute. discriminate.
  - vm_compute. reflexivity.
Defined.

(** ** Every day of a layout *)

Section EveryDay.
Variable H : Host.
Context {A : AstroAPI}.

Local Open Scope nat_scope.

Lemma findPhaseFraction_bracketed (o : CalendarDate) (f : float) :
  _findPhaseFraction o = Some f ->
  bracketed (phase_test (_today o) (JS.rem (mLunarPhase o + 3) 4)) f.
Proof.
  unfold _findPhaseFraction. intros E.
  apply bind_opt_Some in E as ([lo hi] & B & E).
  apply Some_eq in E. subst f. eapply bisect_20_bracketed; eauto.
Qed.

(** A property of day records that the constructor establishes, that
    [next()] establishes of the day it returns, and that setting
    [mIsPhaseEnd] keeps, holds of every day of a layout. *)
Lemma layout_every_day (P : CalendarDate -> Prop) :
  (forall o, P o -> P (set_mIsPhaseEnd true o)) ->
  (forall date o, CalendarDate_fields H date = Some o -> P o) ->
  (forall this h nxt h1 n,
     next H this h = Some (nxt, h1) -> h1 !! nxt = Some n -> P n) ->
  forall date h cal b h',
    constructSeason H date h = Some ((cal, b), h') ->
    forall i r, cal !! i = Some r -> exists o, h' !! r = Some o /\ P o.
Proof.
  intros Pend Pnew Pnext date h cal b h' E.
  apply constructSeason_start in E as (o0 & b0 & Ho0 & E).
  set (Inv := fun (h : heap) (cal : list ref) (current : ref) =>
    length h = S current /\ Forall (fun r => r < current) cal /\
    forall r, r ∈ cal ++ [current] -> exists o, h !! r = Some o /\ P o).
  assert (Step : forall h cal current c0 nxt h1,
    Inv h cal current -> h !! current = Some c0 ->
    JS.strict_ne (mSeason c0) (mSeason o0) = false ->
    next H current h = Some (nxt, h1) -> Inv h1 (cal ++ [current]) nxt).
  { intros h2 cal2 cur c2 nxt h3 (Hlen & Hold & Hall) Hc2 _ N.
    pose proof (next_store H _ _ _ _ N)
      as (-> & Hl3 & Hother & (o & o' & Ho & Ho' & Sb)).
    split; [lia|]. split.
    { rewrite Forall_app. split.
      - eapply Forall_impl; [exact Hold | simpl; intros; lia].
      - constructor; [lia | constructor]. }
    intros r Hr. apply elem_of_app in Hr as [Hr|Hr].
    - destruct (Hall r Hr) as (x & Hx & Px).
      destruct (decide (r = cur)) as [->|Hne].
      + rewrite Ho in Hx. apply Some_eq in Hx. subst x.
        exists o'. split; [exact Ho'|].
        destruct Sb as [-> | ->]; auto.
      + exists x. split; [|exact Px].
        rewrite Hother; [exact Hx | exact Hne |].
        eapply lookup_lt_Some; eauto.
    - apply list_elem_of_singleton in Hr. subst r.
      assert (is_Some (h3 !! length h2)) as [n Hn]
        by (apply lookup_lt_is_Some_2; lia).
      exists n. split; [exact Hn|]. eapply Pnext; eauto. }
  assert (Inv0 : Inv (h ++ [o0]) [] (length h)).
  { split; [rewrite length_app; simpl; lia|]. split; [constructor|].
    intros r Hr. apply list_elem_of_singleton in Hr. subst r.
    exists o0. split; [apply list_lookup_middle; reflexivity|].
    eapply Pnew; eauto. }
  destruct (season_loop_preserves H Inv _ Step _ _ _ _ _ _ _ _ Inv0 E)
    as (cur & _ & _ & Hall).
  intros i r Hi. apply Hall. apply elem_of_app. left.
  eapply list_elem_of_lookup_2; eauto.
Qed.

(** Every day of a layout that is flagged as the start of a lunar quarter
    carries a phase fraction, the midpoint of the bracket of
    [_findPhaseFraction]; the other days carry none. *)
Theorem layout_ticks (date : Date.t) (h : heap) (cal : list ref)
    (b : Bounds) (h' : heap) :
  constructSeason H date h = Some ((cal, b), h') ->
  forall i r, cal !! i = Some r -> exists o, h' !! r = Some o /\ tick_ok o.
Proof.
  apply layout_every_day.
  - intros o. unfold tick_ok. destruct o; exact (fun P => P).
  - intros d o E. unfold tick_ok.
    apply (CalendarDate_fields_fresh H) in E as (_ & -> & _ & ->).
    reflexivity.
  - intros this h0 nxt h1 n N Hn.
    apply next_new in N
      as (o & m & n' & _ & _ & Hn' & Ht & _ & Hq & Hcase).
    rewrite Hn in Hn'. apply Some_eq in Hn'. subst n'.
    unfold tick_ok.
    destruct (JS.strict_eq (mLunarPhase o) (mLunarPhase m)).
    + destruct Hcase as [-> ->]. reflexivity.
    + destruct Hcase as (-> & f & -> & Hf).
      exists f. split; [reflexivity|]. rewrite Ht, Hq.
      apply findPhaseFraction_bracketed. exact Hf.
Qed.

End EveryDay.

(** Spring 2024 on the UTC host. *)
Lemma layout_ticks_spring_2024 :
  exists cal b h',
    Example.spring_2024 = Some ((cal, b), h') /\
    forall i r, cal !! i = Some r ->
      exists o, h' !! r = Some o /\ tick_ok (A := Example.utc_astro) o.
Proof.
  do 3 eexists. split; [vm_compute; reflexivity|].
  eapply (layout_ticks RefHost.utc (A := Example.utc_astro)
            (Example.day 2024 5 15) []).
  vm_compute. reflexivity.
Defined.
(** ** Rows *)

Lemma half_steps : all_from 200 half_step 0 = true.
Proof. vm_compute. reflexivity. Qed.

Lemma records_lookup (h : heap) (cal : list ref) :
  Forall (fun r => (r < length h)%nat) cal ->
  forall i, records h cal !! i = cal !! i ≫= (fun r => h !! r).
Proof.
  unfold records. induction 1 as [|r cal Hr _ IH]; intros i.
  - reflexivity.
  - destruct (lookup_lt_is_Some_2 h r Hr) as [o Ho].
    cbn [omap list_omap]. rewrite Ho.
    destruct i as [|i]; simpl; [symmetry; exact Ho | apply IH].
Qed.

Section Rows.
Variable H : Host.
Context {A : AstroAPI}.

Local Open Scope nat_scope.

(** A layout that is not empty starts with the newest object of the store
    [constructSeason] was entered with, and that day lies at the origin. *)
Lemma layout_first date h cal b h' r :
  constructSeason H date h = Some ((cal, b), h') -> cal !! 0 = Some r ->
  exists o, h' !! r = Some o /\ mPlace o = {| x := 0; y := 0 |}.
Proof.
  intros E Hr.
  apply constructSeason_start in E as (o0 & b0 & Ho0 & E).
  apply (CalendarDate_fields_fresh H) in Ho0 as (Hpl & _).
  assert (Hlen : length (h ++ [o0]) = S (length h))
    by (rewrite length_app; simpl; lia).
  assert (Hcur : (h ++ [o0]) !! length h = Some o0)
    by (apply list_lookup_middle; reflexivity).
  destruct (season_loop_current H _ _ _ _ _ _ _ _ _ _ Hlen E Hcur)
    as (o & Ho & Sb).
  assert (r = length h) as ->.
  { apply season_loop_step in E as (c1 & Hc1 & E).
    destruct (JS.strict_ne (mSeason c1) (mSeason o0)).
    - apply pair_eq in E as [E _]. apply (f_equal fst) in E. simpl in E.
      subst cal. discriminate.
    - destruct E as (nxt & h1 & b1 & _ & E).
      apply season_loop_extends in E as (l & ->).
      simpl in Hr. apply Some_eq in Hr. auto. }
  exists o. split; [exact Ho|].
  destruct Sb as [-> | ->]; exact Hpl.
Qed.

(** The [y] of every day of a layout is exactly half its row number: the
    first day lies in row 0, and each change of the lunar quarter between
    neighbours opens the next row, half a unit lower. *)
Theorem layout_rows (date : Date.t) (h : heap) (cal : list ref)
    (b : Bounds) (h' : heap) :
  constructSeason H date h = Some ((cal, b), h') ->
  forall i D, records h' cal !! i = Some D ->
    y (mPlace D) = (JS.of_Z (row (records h' cal) i) * 0.5)%float /\
    (0 <= row (records h' cal) i <= Z.of_nat i)%Z.
Proof.
  intros E.
  pose proof (fun r => layout_first _ _ _ _ _ r E) as First.
  apply constructSeason_Some in E as (current & c & h0 & b0 & I & _ & E).
  destruct (season_loop_inv H 200 _ _ _ _ _ _ _ _ I E) as (T & L & V).
  simpl in L. clear E I.
  pose proof (records_lookup h' cal V) as R.
  generalize dependent (records h' cal). intros recs R.
  induction i as [|i IH]; intros D HD.
  - rewrite R in HD. destruct (cal !! 0) as [r|] eqn:Hr; [|discriminate].
    simpl in HD. destruct (First r eq_refl) as (o & Ho & Hpl).
    rewrite Ho in HD. apply Some_eq in HD. subst o. rewrite Hpl.
    split; [reflexivity | simpl; lia].
  - pose proof HD as HD'. rewrite R in HD'.
    destruct (cal !! S i) as [r2|] eqn:Hr2; [|discriminate]. simpl in HD'.
    assert (Hi : S i < length cal) by (eapply lookup_lt_Some; eauto).
    destruct (lookup_lt_is_Some_2 cal i ltac:(lia)) as [r1 Hr1].
    destruct (T i r1 r2 Hr1 Hr2) as (D1 & D2 & HD1 & HD2 & Til).
    rewrite HD2 in HD'. apply Some_eq in HD'. subst D2.
    assert (Hrec1 : recs !! i = Some D1) by (rewrite R, Hr1; exact HD1).
    destruct (IH D1 Hrec1) as (Hy & Hrow).
    cbn [row]. rewrite Hrec1, HD.
    destruct Til as [(Hq & Ey & _) | (Hq & Ey & _)]; rewrite Hq, Ey, Hy.
    + rewrite Z.add_0_r. split; [reflexivity | lia].
    + split; [|lia].
      apply FloatAxioms.Leibniz.eqb_spec.
      apply (all_from_sound _ _ _ half_steps). simpl. lia.
Qed.

End Rows.

(** Spring 2024 on the UTC host. *)
Lemma layout_rows_spring_2024 :
  exists cal b h',
    Example.spring_2024 = Some ((cal, b), h') /\
    forall i D, records h' cal !! i = Some D ->
      y (mPlace D) = (JS.of_Z (row (records h' cal) i) * 0.5)%float /\
      (0 <= row (records h' cal) i <= Z.of_nat i)%Z.
Proof.
  do 3 eexists. split; [vm_compute; reflexivity|].
  eapply (layout_rows RefHost.utc (A := Example.utc_astro)
            (Example.day 2024 5 15) []).
  vm_compute. reflexivity.
Defined.

(** ** The search when the old value is never seen *)

Lemma bisect_never n test : forall lo hi,
  never test (probes_down n lo hi) = true ->
  bisect n test lo hi = Some (lo, hi_down n lo hi).
Proof.
  induction n as [|n IH]; intros lo hi N; [reflexivity|].
  cbn [probes_down never forallb] in N. apply andb_prop in N as [N0 N].
  cbn [bisect hi_down].
  destruct (test ((lo + hi) / 2)%float) as [[|]|]; try discriminate.
  cbn [bind_opt]. apply IH. exact N.
Qed.

Section NeverSeen.
Context {A : AstroAPI}.

(** When [Astro.moonPhase] differs from the old quarter at each of the 20
    instants 2^-1, 2^-2, ..., 2^-20 of the day, [_findPhaseFraction] returns
    2^-21: the phase tick is drawn at the very start of the day, although
    the quarter was never seen to change within it. *)
Theorem phaseFraction_never_seen (o : CalendarDate) :
  never (phase_test (_today o) (JS.rem (mLunarPhase o + 3) 4))
    (probes_down 20 0 1) = true ->
  _findPhaseFraction o = Some 0x1p-21%float.
Proof.
  intros N. unfold _findPhaseFraction.
  rewrite (bisect_never 20 _ 0 1 N). reflexivity.
Qed.

End NeverSeen.

(** 30 October 2006 in Helsinki, the day after the clocks went back: the
    moon reached its first quarter during the 25th hour of 29 October, which
    the end-of-day instant of the 29th, 24 hours after its midnight,
    precedes. *)
Lemma phaseFraction_never_seen_helsinki_2006 :
  exists o,
    CalendarDate_fields RefHost.helsinki (A := Example.helsinki_astro)
      (Date.new_ymd RefHost.helsinki 2006 9 30) = Some o /\
    _findPhaseFraction (A := Example.helsinki_astro) o = Some 0x1p-21%float.
Proof.
  eexists. split; [vm_compute; reflexivity|].
  apply (phaseFraction_never_seen (A := Example.helsinki_astro)).
  vm_compute. reflexivity.
Defined.

(** ** Equality of numbers *)

Lemma compare_cont_Eq m1 m2 :
  PosDef.Pos.compare_cont Eq m1 m2 = Eq <-> m1 = m2.
Proof. apply Pos.compare_eq_iff. Qed.

Lemma SFeqb_finite s1 m1 e1 s2 m2 e2 :
  SFeqb (S754_finite s1 m1 e1) (S754_finite s2 m2 e2) = true <->
  s1 = s2 /\ m1 = m2 /\ e1 = e2.
Proof.
  unfold SFeqb, SFcompare. split.
  - destruct s1, s2; try discriminate;
      destruct (e1 ?= e2)%Z eqn:Ee; try discriminate;
      apply Z.compare_eq in Ee;
      destruct (PosDef.Pos.compare_cont Eq m1 m2) eqn:Em; try discriminate;
      apply compare_cont_Eq in Em; auto.
  - intros (-> & -> & ->). rewrite Z.compare_refl.
    rewrite (proj2 (compare_cont_Eq m2 m2) eq_refl).
    destruct s2; reflexivity.
Qed.

Lemma SFeqb_same f1 f2 : SFeqb f1 f2 = true <-> sf_same f1 f2.
Proof.
  destruct f1 as [s1|s1| |s1 m1 e1], f2 as [s2|s2| |s2 m2 e2];
    try apply SFeqb_finite;
    unfold SFeqb, SFcompare, sf_same;
    try destruct s1; try destruct s2;
    split; intros E; try discriminate; try tauto; try reflexivity.
Qed.

Lemma sf_same_sym f1 f2 : sf_same f1 f2 -> sf_same f2 f1.
Proof.
  unfold sf_same. destruct f1, f2; try tauto; try congruence.
  intros (-> & -> & ->). auto.
Qed.

Lemma sf_same_trans f1 f2 f3 : sf_same f1 f2 -> sf_same f2 f3 -> sf_same f1 f3.
Proof.
  unfold sf_same. destruct f1, f2, f3; try tauto; try congruence.
  intros (-> & -> & ->) (-> & -> & ->). auto.
Qed.

(** [===] on numbers is symmetric and transitive. *)
Lemma strict_eq_sym x y : JS.strict_eq x y = true -> JS.strict_eq y x = true.
Proof.
  unfold JS.strict_eq. rewrite !FloatAxioms.eqb_spec, !SFeqb_same.
  apply sf_same_sym.
Qed.

Lemma strict_eq_trans x y z :
  JS.strict_eq x y = true -> JS.strict_eq y z = true ->
  JS.strict_eq x z = true.
Proof.
  unfold JS.strict_eq. rewrite !FloatAxioms.eqb_spec, !SFeqb_same.
  apply sf_same_trans.
Qed.

Lemma strict_ne_false x y :
  JS.strict_ne x y = false <-> JS.strict_eq x y = true.
Proof.
  unfold JS.strict_ne, JS.strict_eq. destruct (x =? y)%float; simpl;
    split; congruence.
Qed.

(** ** The layout contains the day it was asked for *)

Section ContainsDate.
Variable H : Host.
Context {A : AstroAPI}.
Variable c : Z.
Hypothesis Hfix : fixed_offset H c.

Local Open Scope nat_scope.

(** While the days of the run are in the target season, the loop goes on:
    with enough rounds left it pushes the [k]-th day. *)
Lemma season_loop_reaches D1 target k n :
  (day_100 <= D1)%Z ->
  forall current cal b h cal' b' h',
    run_inv c D1 h cal current ->
    (forall i, length cal <= i <= k ->
       JS.strict_ne (season_of (local_midnight c (D1 + Z.of_nat i))) target
       = false) ->
    length cal <= k -> k < length cal + n ->
    season_loop H n target current cal b h = Some ((cal', b'), h') ->
    k < length cal'.
Proof.
  intros HD1. induction n as [|n IH];
    intros current cal b h cal' b' h' Inv In Hk Hn E; [lia|].
  apply season_loop_step in E as (c0 & Hc0 & E).
  destruct (proj2 (proj2 Inv) (length cal) current) as (o & Ho & Ht & Hs).
  { apply list_lookup_middle. reflexivity. }
  rewrite Hc0 in Ho. apply Some_eq in Ho. subst o.
  rewrite Hs, Ht, (In (length cal)) in E by lia.
  destruct E as (nxt & h1 & b1 & N & E).
  pose proof (run_step H c Hfix D1 _ _ _ _ _ HD1 Inv N) as Inv1.
  destruct (decide (length cal = k)) as [<-|Hne].
  - apply season_loop_extends in E as (l & ->).
    rewrite !length_app. simpl. lia.
  - eapply IH; [exact Inv1 | | | | exact E];
      rewrite ?length_app; simpl; try lia.
    intros i Hi. apply In. lia.
Qed.

(** On a host with a fixed offset, from the year 101 on, and when the
    season of the day of [date] is a number, the layout contains that day,
    fewer than 200 places from its start: it is the day [findFirstInSeason]
    stepped back from. *)
Theorem layout_contains_date (date : Date.t) (h : heap) (cal : list ref)
    (b : Bounds) (h' : heap) :
  (Date.new_ymd H 101 0 1 <= date)%Z ->
  JS.strict_eq (season_of (Date.midnight H date))
    (season_of (Date.midnight H date)) = true ->
  constructSeason H date h = Some ((cal, b), h') ->
  exists k r o, k < 200 /\
    findFirstInSeason H date = days_before (Date.midnight H date) k /\
    cal !! k = Some r /\ h' !! r = Some o /\
    _today o = Date.midnight H date.
Proof.
  intros Hdate Hnum E.
  destruct (first_day_fixed H c Hfix date Hdate)
    as (D & k & Hk & HD1 & Hmid & Hfirst & Hover).
  apply constructSeason_start in E as (o0 & b0 & Ho0 & E).
  rewrite Hmid in *. rewrite Hfirst in *.
  assert (Hseason : forall i, i <= k ->
    JS.strict_eq (season_of (local_midnight c (D - Z.of_nat i)))
      (season_of (local_midnight c D)) = true).
  { intros i Hi. destruct (Hover i Hi) as [-> | Hne].
    - rewrite Z.sub_0_r. exact Hnum.
    - apply strict_ne_false. exact Hne. }
  pose proof (run_start H c Hfix _ h o0 HD1 Ho0) as Inv0.
  assert (Htarget : mSeason o0
                    = season_of (local_midnight c (D - Z.of_nat k))).
  { destruct (proj2 (proj2 Inv0) 0 (length h) eq_refl) as (o & Ho & Ht & Hs).
    rewrite list_lookup_middle in Ho by reflexivity.
    apply Some_eq in Ho. subst o. rewrite Hs, Ht. f_equal. f_equal. lia. }
  assert (Hreach : k < length cal).
  { eapply (season_loop_reaches _ (mSeason o0) k 200 HD1);
      [exact Inv0 | | simpl; lia | simpl; lia | exact E].
    intros i Hi. apply strict_ne_false. rewrite Htarget.
    apply strict_eq_trans with (season_of (local_midnight c D)).
    - replace (D - Z.of_nat k + Z.of_nat i)%Z
        with (D - Z.of_nat (k - i))%Z by lia.
      apply Hseason. lia.
    - apply strict_eq_sym. apply Hseason. lia. }
  destruct (season_loop_preserves H (run_inv c (D - Z.of_nat k)) (mSeason o0)
              ltac:(intros; eapply run_step; eauto)
              _ _ _ _ _ _ _ _ Inv0 E)
    as (cur & _ & _ & Hdays).
  destruct (lookup_lt_is_Some_2 cal k Hreach) as [r Hr].
  destruct (Hdays k r) as (o & Ho & Ht & _).
  { apply lookup_app_l_Some. exact Hr. }
  exists k, r, o. split; [exact Hk|]. split.
  { unfold days_before, local_midnight, Date.msPerDay. lia. }
  split; [exact Hr|]. split; [exact Ho|].
  rewrite Ht. f_equal. lia.
Qed.

End ContainsDate.

(** 15 May 2024 on the UTC host. *)
Lemma layout_contains_date_spring_2024 :
  exists cal b h',
    Example.spring_2024 = Some ((cal, b), h') /\
    exists k r o, (k < 200)%nat /\
      findFirstInSeason RefHost.utc (A := Example.utc_astro)
        (Example.day 2024 5 15)
      = days_before (Date.midnight RefHost.utc (Example.day 2024 5 15)) k /\
      cal !! k = Some r /\ h' !! r = Some o /\
      _today o = Date.midnight RefHost.utc (Example.day 2024 5 15).
Proof.
  do 3 eexists. split; [vm_compute; reflexivity|].
  eapply (layout_contains_date RefHost.utc (A := Example.utc_astro) 0
            (conj (fun _ => eq_refl) (fun _ => eq_refl))
            (Example.day 2024 5 15) []).
  - vm_compute. discriminate.
  - vm_compute. reflexivity.
  - vm_compute. reflexivity.
Defined.

(** ** Where the layout ends *)

Section LayoutEnd.
Variable H : Host.
Context {A : AstroAPI}.
Variable c : Z.
Hypothesis Hfix : fixed_offset H c.

Local Open Scope nat_scope.

(** When the loop is left with rounds to spare, the day it was looking at
    is out of the target season. *)
Lemma season_loop_stops D1 target n :
  (day_100 <= D1)%Z ->
  forall current cal b h cal' b' h',
    run_inv c D1 h cal current ->
    season_loop H n target current cal b h = Some ((cal', b'), h') ->
    length cal' < length cal + n ->
    JS.strict_ne
      (season_of (local_midnight c (D1 + Z.of_nat (length cal')))) target
    = true.
Proof.
  intros HD1. induction n as [|n IH];
    intros current cal b h cal' b' h' Inv E Hlen.
  - simpl in E. unfold ret in E. apply Some_pair_eq in E as [E _].
    apply (f_equal fst) in E. simpl in E. subst cal'. lia.
  - apply season_loop_step in E as (c0 & Hc0 & E).
    destruct (proj2 (proj2 Inv) (length cal) current) as (o & Ho & Ht & Hs).
    { apply list_lookup_middle. reflexivity. }
    rewrite Hc0 in Ho. apply Some_eq in Ho. subst o.
    rewrite Hs, Ht in E.
    destruct (JS.strict_ne
                (season_of (local_midnight c (D1 + Z.of_nat (length cal))))
                target) eqn:Hne.
    + apply pair_eq in E as [E _]. apply (f_equal fst) in E. simpl in E.
      subst cal'. exact Hne.
    + destruct E as (nxt & h1 & b1 & N & E).
      pose proof (run_step H c Hfix D1 _ _ _ _ _ HD1 Inv N) as Inv1.
      eapply IH; [exact Inv1 | exact E |].
      rewrite length_app. simpl. lia.
Qed.

(** On a host with a fixed offset, from the year 101 on, a layout of fewer
    than 200 days ends where the season does: the day after its last day
    has another season than its first day (for an empty layout, the first
    day's season is NaN). *)
Theorem layout_ends_with_season (date : Date.t) (h : heap) (cal : list ref)
    (b : Bounds) (h' : heap) :
  (Date.new_ymd H 101 0 1 <= date)%Z ->
  constructSeason H date h = Some ((cal, b), h') ->
  length cal < 200 ->
  JS.strict_ne
    (season_of (findFirstInSeason H date
                + Z.of_nat (length cal) * 86400000)%Z)
    (season_of (findFirstInSeason H date)) = true.
Proof.
  intros Hdate E Hlen.
  destruct (first_day_fixed H c Hfix date Hdate)
    as (D & k & _ & HD1 & _ & Hfirst & _).
  apply constructSeason_start in E as (o0 & b0 & Ho0 & E).
  remember (D - Z.of_nat k)%Z as D1 eqn:ED1. clear ED1.
  rewrite Hfirst in *.
  pose proof (run_start H c Hfix D1 h o0 HD1 Ho0) as Inv0.
  assert (Htarget : mSeason o0 = season_of (local_midnight c D1)).
  { destruct (proj2 (proj2 Inv0) 0 (length h) eq_refl) as (o & Ho & Ht & Hs).
    rewrite list_lookup_middle in Ho by reflexivity.
    apply Some_eq in Ho. subst o. rewrite Hs, Ht. f_equal. f_equal. lia. }
  rewrite <- Htarget.
  replace (local_midnight c D1 + Z.of_nat (length cal) * 86400000)%Z
    with (local_midnight c (D1 + Z.of_nat (length cal)))
    by (unfold local_midnight, Date.msPerDay; lia).
  eapply (season_loop_stops D1 (mSeason o0) 200 HD1);
    [exact Inv0 | exact E | simpl; lia].
Qed.


End LayoutEnd.

(** Spring 2024 on the UTC host: 92 days. *)
Lemma layout_ends_with_season_spring_2024 :
  exists cal b h',
    Example.spring_2024 = Some ((cal, b), h') /\
    JS.strict_ne
      (season_of (A := Example.utc_astro)
         (findFirstInSeason RefHost.utc (A := Example.utc_astro)
            (Example.day 2024 5 15)
          + Z.of_nat (length cal) * 86400000)%Z)
      (season_of (A := Example.utc_astro)
         (findFirstInSeason RefHost.utc (A := Example.utc_astro)
            (Example.day 2024 5 15))) = true.
Proof.
  do 3 eexists. split; [vm_compute; reflexivity|].
  eapply (layout_ends_with_season RefHost.utc (A := Example.utc_astro) 0
            (conj (fun _ => eq_refl) (fun _ => eq_refl))
            (Example.day 2024 5 15) []).
  - vm_compute. discriminate.
  - vm_compute. reflexivity.
  - vm_compute. lia.
Defined.


(** ** The octant of the moon *)

Lemma and7_range (x : float) : (0 <= JS.and7 x <= 7)%Z.
Proof.
  unfold JS.and7. destruct (JS.to_Z x) as [z|]; [|lia].
  change 7%Z with (Z.ones 3). rewrite Z.land_ones by lia.
  pose proof (Z.mod_pos_bound z (2 ^ 3) ltac:(lia)) as B.
  change (Z.ones 3) with 7%Z. change (2 ^ 3)%Z with 8%Z in *. lia.
Qed.

(** Whenever [moonPhase_] returns, its octant [p] is one of 0, ..., 7, also
    for a phase angle that is negative, beyond 360 or NaN: it can always
    index the eight names of the phases. *)
Theorem moonPhase_octant (H : Host) (fuel : nat) (dt : Date.t)
    (r : Astro.MoonPhase) :
  Astro.moonPhase_ H fuel dt = Some r -> (0 <= Astro.p r <= 7)%Z.
Proof.
  unfold Astro.moonPhase_. intros E.
  apply bind_opt_Some in E as (ls & _ & E).
  apply Some_eq in E. subst r. cbn [Astro.p]. apply and7_range.
Qed.

(** Noon of 15 May 2024 on the UTC host: the first quarter. *)
Lemma moonPhase_octant_may_2024 :
  exists r,
    Astro.moonPhase_ RefHost.utc 100 (Example.instant 2024 5 15 12 0) = Some r
    /\ Astro.p r = 2%Z /\ (0 <= Astro.p r <= 7)%Z.
Proof.
  eexists. split; [vm_compute; reflexivity|]. split; [reflexivity|].
  apply (moonPhase_octant RefHost.utc 100 (Example.instant 2024 5 15 12 0)).
  vm_compute. reflexivity.
Defined.

(** ** The date picker *)

Section PickerFacts.

Import Stdlib.Strings.String Stdlib.Strings.Ascii Stdlib.Numbers.DecimalString.
Import Picker.
Local Open Scope string_scope.

Lemma Number_String_of z : (0 <= z)%Z -> Number (String_of z) = Some z.
Proof.
  intros Hz. unfold Number, String_of.
  destruct z as [|p|p]; [reflexivity| |lia].
  cbn [Z.to_int NilZero.string_of_int]. unfold NilZero.string_of_uint.
  pose proof (Stdlib.Numbers.DecimalPos.Unsigned.to_uint_nonnil p) as Hn.
  destruct (Pos.to_uint p) eqn:E; try contradiction;
    rewrite <- E, NilEmpty.usu; unfold Z.of_uint;
    rewrite Stdlib.Numbers.DecimalPos.Unsigned.of_to; reflexivity.
Qed.

Lemma Number_zeros k s :
  Number (string_of_list_ascii (repeat "0"%char k) ++ s) = Number s.
Proof.
  induction k as [|k IH]; [reflexivity|].
  cbn [repeat string_of_list_ascii append]. unfold Number in *.
  cbn [NilEmpty.uint_of_string].
  destruct (NilEmpty.uint_of_string
              (string_of_list_ascii (repeat "0"%char k) ++ s)) as [d|];
    destruct (NilEmpty.uint_of_string s) as [d'|];
    try discriminate; cbn [uint_of_char]; [|reflexivity].
  rewrite <- IH. reflexivity.
Qed.

Lemma Number_padStart z :
  (0 <= z)%Z -> Number (padStart 2 "0" (String_of z)) = Some z.
Proof.
  intros Hz. unfold padStart. rewrite Number_zeros.
  apply Number_String_of. exact Hz.
Qed.

(** A string [Number] reads as digits holds no dash. *)
Lemma digit_not_dash a o d :
  uint_of_char a o = Some d -> Ascii.eqb a "-" = false.
Proof.
  destruct o as [d0|]; [|discriminate].
  destruct a as [[] [] [] [] [] [] [] []]; try discriminate; reflexivity.
Qed.

Lemma split_nonempty c s : split c s <> [].
Proof.
  destruct s as [|a s]; simpl; [discriminate|].
  destruct (Ascii.eqb a c); [discriminate|].
  destruct (split c s); discriminate.
Qed.

Lemma split_digits s rest z :
  Number s = Some z ->
  split "-" (s ++ String "-" rest) = s :: split "-" rest.
Proof.
  unfold Number. revert z. induction s as [|a s IH]; intros z E.
  - reflexivity.
  - cbn [append split]. cbn [NilEmpty.uint_of_string] in E.
    destruct (uint_of_char a (NilEmpty.uint_of_string s)) as [d|] eqn:Ed;
      [|discriminate].
    rewrite (digit_not_dash _ _ _ Ed).
    destruct (NilEmpty.uint_of_string s) as [d0|] eqn:Es;
      [|destruct a as [[] [] [] [] [] [] [] []]; discriminate].
    rewrite (IH _ eq_refl). reflexivity.
Qed.

Lemma split_digits_last s z : Number s = Some z -> split "-" s = [s].
Proof.
  unfold Number. revert z. induction s as [|a s IH]; intros z E.
  - reflexivity.
  - cbn [split]. cbn [NilEmpty.uint_of_string] in E.
    destruct (uint_of_char a (NilEmpty.uint_of_string s)) as [d|] eqn:Ed;
      [|discriminate].
    rewrite (digit_not_dash _ _ _ Ed).
    destruct (NilEmpty.uint_of_string s) as [d0|] eqn:Es;
      [|destruct a as [[] [] [] [] [] [] [] []]; discriminate].
    rewrite (IH _ eq_refl). reflexivity.
Qed.

(** The text [formatDateValue] writes for a date whose year is not negative
    is read back by [parseDateValue] as [new Date(y, m, d)] of that date:
    the local midnight the constructor of [CalendarDate] starts from. *)
Theorem parse_format (H : Host) (date : Date.t) :
  (0 <= Date.getFullYear H date)%Z ->
  parseDateValue H (formatDateValue H date) = Some (Date.midnight H date).
Proof.
  intros Hy.
  assert (Hm : (0 <= Date.getMonth H date + 1)%Z /\
               (0 <= Date.getDate H date)%Z).
  { pose proof (civil_from_days_range
                  (Date.LocalTime H date / Date.msPerDay)) as R.
    unfold Date.getMonth, Date.getDate.
    destruct (Date.civil_from_days (Date.LocalTime H date / Date.msPerDay))
      as [[y m] d]. lia. }
  destruct Hm as [Hm Hd].
  unfold formatDateValue, parseDateValue, Date.midnight. cbv zeta.
  revert Hy Hm Hd.
  generalize (Date.getFullYear H date) (Date.getMonth H date)
    (Date.getDate H date).
  intros y m d Hy Hm Hd. cbn [append].
  rewrite (split_digits _ _ _ (Number_String_of y Hy)).
  rewrite (split_digits _ _ _ (Number_padStart (m + 1) Hm)).
  rewrite (split_digits_last _ _ (Number_padStart d Hd)).
  rewrite Number_String_of, !Number_padStart by assumption.
  cbn [bind_opt]. replace (m + 1 - 1)%Z with m by lia. reflexivity.
Qed.

(** 15 May 2024 on the UTC host: the text is 2024-05-15. *)
Lemma parse_format_may_2024 :
  Picker.parseDateValue RefHost.utc
    (Picker.formatDateValue RefHost.utc (Example.instant 2024 5 15 13 30))
  = Some (Example.day 2024 5 15).
Proof.
  rewrite (parse_format RefHost.utc (Example.instant 2024 5 15 13 30)).
  - vm_compute. reflexivity.
  - vm_compute. discriminate.
Defined.

(** A year before 0 is not read back: the text of 15 June of the year -1
    starts with a dash, so the first part is empty and reads as 0, and the
    date parsed is 6 January 1900. *)
Lemma parse_format_negative_year :
  Picker.formatDateValue RefHost.utc (Example.day (-1) 6 15)
  = "-1-06-15" /\
  Picker.parseDateValue RefHost.utc "-1-06-15" = Some (Example.day 1900 1 6).
Proof. split; vm_compute; reflexivity. Qed.

End PickerFacts.

(** ** Day numbers *)

(** The machine's conversion agrees with [JS.of_Z]. *)
Lemma fast_of_Z_eq z : (0 <= z < 2 ^ 63)%Z -> fast_of_Z z = JS.of_Z z.
Proof.
  intros Hz. unfold fast_of_Z, JS.of_Z.
  rewrite <- (SF2Prim_Prim2SF (of_uint63 (Uint63.of_Z z))).
  rewrite FloatAxioms.of_uint63_spec, Uint63.of_Z_spec.
  rewrite Z.mod_small; [reflexivity|].
  change Uint63.wB with (2 ^ 63)%Z. exact Hz.
Qed.

(** The months from March 1900 to February 2100. *)
Lemma j_months_1900_2100 : all_from 2400 j_month_ok 22800 = true.
Proof. vm_cast_no_check (eq_refl true). Qed.

Lemma julian_months_1900_2100 : all_from 2400 julian_month_ok 22800 = true.
Proof. vm_cast_no_check (eq_refl true). Qed.

(** From 1 March 1900 to 28 February 2100, the date of a day, its place
    among the months and its day number. *)
Lemma civil_window D :
  (-25508 <= D <= 47540)%Z ->
  exists j y m d,
    (22800 <= j < 22800 + 2400)%Z /\ month_of_index j = (y, m) /\
    (1 <= d <= 31)%Z /\ Date.civil_from_days D = (y, m, d) /\
    D = (Date.days_from_civil y m 1 + d - 1)%Z.
Proof.
  intros HD.
  assert (RT := civil_round_trip D ltac:(unfold day_100; lia)).
  destruct RT as (y0 & m0 & d0 & E0 & _ & M & _).
  pose proof (civil_from_days_range D) as R. rewrite E0 in R.
  revert E0. unfold Date.civil_from_days. cbv zeta.
  remember (D + 719468)%Z as z eqn:Ez.
  remember (z / 146097)%Z as era eqn:Eera.
  remember (z - era * 146097)%Z as doe eqn:Edoe.
  assert (Hdoe : (0 <= doe < 146097)%Z)
    by (subst doe era; Z.div_mod_to_equations; lia).
  assert (Hera : (era = 4 /\ 109572 <= doe \/ era = 5 /\ doe <= 36523)%Z)
    by (subst doe era z; Z.div_mod_to_equations; lia).
  pose proof (year_window doe Hdoe) as Y. cbv zeta in Y.
  remember ((doe - doe / 1460 + doe / 36524 - doe / 146096) / 365)%Z as yoe
    eqn:Eyoe.
  remember (doe - (365 * yoe + yoe / 4 - yoe / 100))%Z as doy eqn:Edoy.
  destruct Y as (Hyoe & Hdoy & Hlo & Hhi).
  pose proof (month_of_year doy Hdoy) as Mo. cbv zeta in Mo.
  remember ((5 * doy + 2) / 153)%Z as mp eqn:Emp.
  destruct Mo as (Hmp & _).
  intros E0.
  exists (12 * (yoe + era * 400) + mp)%Z, y0, m0, d0.
  assert (Hy' : (1900 <= yoe + era * 400 <= 2099)%Z) by lia.
  split; [lia|]. split.
  { unfold month_of_index. cbv zeta.
    replace ((12 * (yoe + era * 400) + mp) / 12)%Z with (yoe + era * 400)%Z
      by (Z.div_mod_to_equations; lia).
    replace ((12 * (yoe + era * 400) + mp) mod 12)%Z with mp
      by (Z.div_mod_to_equations; lia).
    destruct (mp <? 10)%Z eqn:C;
      [apply Z.ltb_lt in C | apply Z.ltb_ge in C].
    - replace (mp + 3 <=? 2)%Z with false in E0
        by (symmetry; apply Z.leb_gt; lia).
      apply pair_eq in E0 as [E0 _]. apply pair_eq in E0 as [<- <-].
      reflexivity.
    - replace (mp - 9 <=? 2)%Z with true in E0
        by (symmetry; apply Z.leb_le; lia).
      apply pair_eq in E0 as [E0 _]. apply pair_eq in E0 as [<- <-].
      reflexivity. }
  split; [lia|]. split; [exact E0|].
  rewrite <- M. unfold Date.MakeDay.
  replace ((m0 - 1) / 12)%Z with 0%Z by (Z.div_mod_to_equations; lia).
  replace ((m0 - 1) mod 12 + 1)%Z with m0 by (Z.div_mod_to_equations; lia).
  rewrite Z.add_0_r. reflexivity.
Qed.

Lemma j_month_ok_eq j : j_month_ok j = j_month_ok_at (month_of_index j).
Proof. reflexivity. Qed.

Lemma julian_month_ok_eq j :
  julian_month_ok j = julian_month_ok_at (month_of_index j).
Proof. reflexivity. Qed.

(** [epoch2000Date], with its day count set apart. *)
Lemma epoch2000Date_eq (H : Host) (t : Date.t) :
  Astro.epoch2000Date H t =
  (j_day (Date.civil_from_days (Date.LocalTime H t / Date.msPerDay))
   - 730531.5 + JS.of_Z (Date.getHours H t) / 24.0
   + JS.of_Z (Date.getMinutes H t) / (24 * 60.0)
   + Astro.toUtcMinutes H t / (24.0 * 60.0))%float.
Proof.
  unfold Astro.epoch2000Date, Date.getFullYear, Date.getMonth, Date.getDate,
    j_day.
  destruct (Date.civil_from_days (Date.LocalTime H t / Date.msPerDay))
    as [[y m] d].
  reflexivity.
Qed.

(** [julian] after 1582: the part the day adds. *)
Lemma julian_split (y m day : float) :
  (1582 <? julian_year y m)%float = true ->
  Astro.julian y m day = (julian_month y m + day + 1720994.5)%float.
Proof.
  unfold Astro.julian, julian_year, julian_month.
  destruct (m <? 3)%float; intros ->; reflexivity.
Qed.

(** From 1 March 1900 to 28 February 2100 in local time, the day count of
    [epoch2000Date] is exact: the function returns the local day number
    since 1 January 2000 less one half, plus the hour, minute and offset
    terms, all in binary64 arithmetic.  (The formula has no century rule:
    it is a day late from 1 March 2100 and a day early before 1 March
    1900.) *)
Theorem epoch2000Date_day_count (H : Host) (t : Date.t) :
  (-25508 <= Date.LocalTime H t / Date.msPerDay <= 47540)%Z ->
  Astro.epoch2000Date H t =
  (JS.of_Z (Date.LocalTime H t / Date.msPerDay + 719574) - 730531.5
   + JS.of_Z (Date.getHours H t) / 24.0
   + JS.of_Z (Date.getMinutes H t) / (24 * 60.0)
   + Astro.toUtcMinutes H t / (24.0 * 60.0))%float.
Proof.
  intros HD. rewrite epoch2000Date_eq.
  generalize dependent (Date.LocalTime H t / Date.msPerDay)%Z. intros D HD.
  destruct (civil_window D HD) as (j & y & m & d & Hj & Ej & Hd & -> & ED).
  pose proof (all_from_sound _ _ _ j_months_1900_2100 j Hj) as C.
  rewrite j_month_ok_eq, Ej in C. unfold j_month_ok_at in C.
  pose proof (all_from_sound _ _ _ C d ltac:(lia)) as Cd. cbv beta in Cd.
  apply FloatAxioms.Leibniz.eqb_spec in Cd.
  rewrite !fast_of_Z_eq in Cd by lia.
  unfold j_day. rewrite Cd. rewrite <- ED. reflexivity.
Qed.

(** The first instant of 2024 on the UTC host. *)
Lemma epoch2000Date_day_count_2024 :
  Astro.epoch2000Date RefHost.utc (Example.day 2024 1 1) = 8765.5%float.
Proof.
  rewrite (epoch2000Date_day_count RefHost.utc (Example.day 2024 1 1)).
  - vm_compute. reflexivity.
  - vm_compute. split; discriminate.
Defined.

(** The formula has no century rule: 1 March 2100 is counted a day late. *)
Lemma epoch2000Date_late_2100 :
  Astro.epoch2000Date RefHost.utc (Example.day 2100 3 1)
  = (JS.of_Z (47541 + 719574) - 730531.5 + 1)%float.
Proof. vm_compute. reflexivity. Qed.

(** For every civil date from 1 March 1900 to 28 February 2100, [julian]
    returns the Julian Date of the date's midnight. *)
Theorem julian_day_number (D y m d : Z) :
  (-25508 <= D <= 47540)%Z ->
  Date.civil_from_days D = (y, m, d) ->
  Astro.julian (JS.of_Z y) (JS.of_Z m) (JS.of_Z d)
  = (JS.of_Z (D + 2440587) + 0.5)%float.
Proof.
  intros HD E.
  destruct (civil_window D HD)
    as (j & y0 & m0 & d0 & Hj & Ej & Hd & E0 & ED).
  rewrite E in E0. apply pair_eq in E0 as [E0 <-].
  apply pair_eq in E0 as [<- <-].
  pose proof (all_from_sound _ _ _ julian_months_1900_2100 j Hj) as C.
  rewrite julian_month_ok_eq, Ej in C. unfold julian_month_ok_at in C.
  apply andb_prop in C as [G C].
  pose proof (all_from_sound _ _ _ C d ltac:(lia)) as Cd. cbv beta in Cd.
  apply FloatAxioms.Leibniz.eqb_spec in Cd.
  rewrite !fast_of_Z_eq in Cd by lia.
  rewrite (julian_split _ _ _ G), Cd. rewrite <- ED. reflexivity.
Qed.

(** 1 January 2000 is the Julian Date 2 451 544.5. *)
Lemma julian_day_number_2000 :
  Astro.julian 2000 1 1 = 2451544.5%float.
Proof.
  apply (julian_day_number 10957 2000 1 1); [lia | reflexivity].
Defined.
